(** * RobustMatcher (matcher.h): ratio test, symmetry test, RANSAC verification

    A shallow embedding of the class [RobustMatcher] of [matcher.h] and the
    properties of its filtering pipeline.

    - C++ [float] and [double] values are IEEE-754 numbers, taken from the
      specification of the Standard Library ([spec_float]); the one
      arithmetic operation of the file, the [float] quotient of the ratio
      test, is the binary32 division.
    - [int] values are integers [Z]; the one counter of the file wraps at
      32 bits.
    - [std::vector] is [list]; [operator[]] out of range is undefined
      behaviour and is an outcome of its own.
    - OpenCV's detector, extractor, k-nearest-neighbour matcher and
      fundamental-matrix estimators are an interface ([OpenCV]) the class
      is written against; each of them answers or throws, and nothing in
      the class catches an exception.
    - The lines written to [cout] and the [clock()] readings of [match] do
      not influence any value and are left out. *)

From Stdlib Require Import ZArith Bool Lia.
From Stdlib Require Import Floats.SpecFloat.
From stdpp Require Import base list.

Local Open Scope Z_scope.

(** ** IEEE-754 numbers *)

Module IEEE.

(** C++ [float] (binary32) and [double] (binary64). *)
Definition float : Type := spec_float.
Definition double : Type := spec_float.

Definition prec32 : Z := 24.
Definition emax32 : Z := 128.

(** [a / b] on [float] operands. *)
Definition fdiv (a b : float) : float := SFdiv prec32 emax32 a b.

(** [a > b]: false as soon as one operand is a NaN. *)
Definition fgt (a b : spec_float) : bool := SFltb b a.

(** [a <= b]: false as soon as one operand is a NaN. *)
Definition fle (a b : spec_float) : bool := SFleb a b.

Definition is_nan (a : spec_float) : bool :=
  match a with S754_nan => true | _ => false end.

(** Literals of the source. *)
Definition f0_65 : float := S754_finite false 10905190 (-24).
Definition d0_99 : double := S754_finite false 8917127262193582 (-53).
Definition d3_0 : double := S754_finite false 6755399441055744 (-51).

End IEEE.

(** ** 32-bit [int] *)

Definition INT_MAX : Z := 2147483647.

(** Two's-complement wrap-around of a 32-bit [int]. *)
Definition wrap_int (z : Z) : Z := (z + 2147483648) mod 4294967296 - 2147483648.

(** [removed++] *)
Definition int_incr (z : Z) : Z := wrap_int (z + 1).

(** ** OpenCV data *)

Module cv.

Record Point2f := mkPoint2f { x : IEEE.float; y : IEEE.float }.

Record KeyPoint := mkKeyPoint {
  pt : Point2f;
  size : IEEE.float;
  angle : IEEE.float;
  response : IEEE.float;
  octave : Z;
  class_id : Z
}.

Record DMatch := mkDMatch {
  queryIdx : Z;
  trainIdx : Z;
  imgIdx : Z;
  distance : IEEE.float
}.

(** The constructor [cv::DMatch(queryIdx, trainIdx, distance)];
    it sets [imgIdx] to -1. *)
Definition DMatch3 (q t : Z) (d : IEEE.float) : DMatch :=
  {| queryIdx := q; trainIdx := t; imgIdx := -1; distance := d |}.

End cv.

(** [v[i]] on a [std::vector] with an [int] index: defined only inside the
    vector. *)
Definition vector_at {A : Type} (v : list A) (i : Z) : option A :=
  if i <? 0 then None else v !! Z.to_nat i.

(** ** Outcomes and calls to the estimators *)

(** How a method ends: it returns, an exception of the estimator leaves it,
    or its behaviour is undefined (a vector read out of range). *)
Inductive result (E A : Type) : Type :=
| Returned (a : A)
| Thrown (e : E)
| Undefined.

Arguments Returned {E A} a.
Arguments Thrown {E A} e.
Arguments Undefined {E A}.

(** The calls to [cv::findFundamentalMat], with the arguments the estimator
    receives. *)
Inductive call : Type :=
| FM_RANSAC (pts1 pts2 : list cv.Point2f) (param1 param2 : IEEE.double)
| FM_8POINT (pts1 pts2 : list cv.Point2f).

(** A method over a store [S]: from the store at entry to its outcome, the
    store it leaves and the estimator calls it made, in order. *)
Definition M (E S A : Type) : Type := S -> result E A * S * list call.

Definition ret {E S A} (a : A) : M E S A := fun s => (Returned a, s, []).

Definition bind {E S A B} (m : M E S A) (k : A -> M E S B) : M E S B :=
  fun s =>
    match m s with
    | (Returned a, s', tr) =>
        let '(r, s'', tr') := k a s' in (r, s'', tr ++ tr')
    | (Thrown e, s', tr) => (Thrown e, s', tr)
    | (Undefined, s', tr) => (Undefined, s', tr)
    end.

Notation "x <- m ;; k" := (bind m (fun x => k))
  (at level 100, m at level 99, k at level 100, right associativity).
Notation "m ;;; k" := (bind m (fun _ => k))
  (at level 100, k at level 100, right associativity).

Definition gets {E S A} (f : S -> A) : M E S A := fun s => (Returned (f s), s, []).
Definition modify {E S} (f : S -> S) : M E S unit := fun s => (Returned tt, f s, []).
Definition undefined {E S A} : M E S A := fun s => (Undefined, s, []).

(** A call of a service that answers or throws; the exception leaves the
    method. *)
Definition external {E S A} (answer : E + A) : M E S A :=
  fun s =>
    match answer with
    | inl e => (Thrown e, s, [])
    | inr a => (Returned a, s, [])
    end.

(** [v[i]] inside a method. *)
Definition read_at {E S A} (v : list A) (i : Z) : M E S A :=
  match vector_at v i with
  | Some a => ret a
  | None => undefined
  end.

Definition outcome {E S A} (r : result E A * S * list call) : result E A := r.1.1.
Definition store {E S A} (r : result E A * S * list call) : S := r.1.2.
Definition calls {E S A} (r : result E A * S * list call) : list call := r.2.

Definition result_map {E A B} (g : A -> B) (r : result E A) : result E B :=
  match r with
  | Returned a => Returned (g a)
  | Thrown e => Thrown e
  | Undefined => Undefined
  end.

(** ** The OpenCV services the class calls *)

Class OpenCV : Type := {
  (** [cv::Mat] as an image, as a descriptor matrix and as a fundamental
      matrix; the exceptions OpenCV throws. *)
  Image : Type;
  Descriptors : Type;
  Mat : Type;
  exn : Type;
  (** [cv::BruteForceMatcher<cv::L2<float> >::knnMatch(query, train, matches, k)] *)
  knnMatch : Descriptors -> Descriptors -> Z -> exn + list (list cv.DMatch);
  (** [cv::findFundamentalMat(points1, points2, mask, CV_FM_RANSAC, param1, param2)]:
      the matrix and the inlier mask it writes, or the exception it throws. *)
  findFundamentalMat_RANSAC :
    list cv.Point2f -> list cv.Point2f -> IEEE.double -> IEEE.double ->
    exn + (Mat * list Z);
  (** [cv::findFundamentalMat(points1, points2, CV_FM_8POINT)] *)
  findFundamentalMat_8POINT : list cv.Point2f -> list cv.Point2f -> exn + Mat;
  (** [cv::SurfFeatureDetector] and [cv::SurfDescriptorExtractor], the
      defaults of the constructor. *)
  SurfFeatureDetector : Image -> exn + list cv.KeyPoint;
  SurfDescriptorExtractor :
    Image -> list cv.KeyPoint -> exn + (list cv.KeyPoint * Descriptors)
}.

(** ** The class *)

Section RobustMatcher.

Context {opencv : OpenCV}.

Record RobustMatcher := mkRobustMatcher {
  detector : Image -> exn + list cv.KeyPoint;
  extractor : Image -> list cv.KeyPoint -> exn + (list cv.KeyPoint * Descriptors);
  ratio : IEEE.float;
  refineF : bool;
  distance : IEEE.double;
  confidence : IEEE.double;
  points1 : list cv.Point2f;
  points2 : list cv.Point2f
}.

(** [RobustMatcher()] *)
Definition RobustMatcher_new : RobustMatcher :=
  {| detector := SurfFeatureDetector;
     extractor := SurfDescriptorExtractor;
     ratio := IEEE.f0_65;
     refineF := true;
     distance := IEEE.d3_0;
     confidence := IEEE.d0_99;
     points1 := [];
     points2 := [] |}.

Definition setFeatureDetector (detect : Image -> exn + list cv.KeyPoint)
    (o : RobustMatcher) : RobustMatcher :=
  mkRobustMatcher detect (extractor o) (ratio o) (refineF o)
    (distance o) (confidence o) (points1 o) (points2 o).

Definition setDescriptorExtractor
    (desc : Image -> list cv.KeyPoint -> exn + (list cv.KeyPoint * Descriptors))
    (o : RobustMatcher) : RobustMatcher :=
  mkRobustMatcher (detector o) desc (ratio o) (refineF o)
    (distance o) (confidence o) (points1 o) (points2 o).

Definition setMinDistanceToEpipolar (d : IEEE.double) (o : RobustMatcher) : RobustMatcher :=
  mkRobustMatcher (detector o) (extractor o) (ratio o) (refineF o)
    d (confidence o) (points1 o) (points2 o).

Definition setConfidenceLevel (c : IEEE.double) (o : RobustMatcher) : RobustMatcher :=
  mkRobustMatcher (detector o) (extractor o) (ratio o) (refineF o)
    (distance o) c (points1 o) (points2 o).

Definition setRatio (r : IEEE.float) (o : RobustMatcher) : RobustMatcher :=
  mkRobustMatcher (detector o) (extractor o) r (refineF o)
    (distance o) (confidence o) (points1 o) (points2 o).

Definition refineFundamental (flag : bool) (o : RobustMatcher) : RobustMatcher :=
  mkRobustMatcher (detector o) (extractor o) (ratio o) flag
    (distance o) (confidence o) (points1 o) (points2 o).

(** The two public buffers, replaced together. *)
Definition with_points (p1 p2 : list cv.Point2f) (o : RobustMatcher) : RobustMatcher :=
  mkRobustMatcher (detector o) (extractor o) (ratio o) (refineF o)
    (distance o) (confidence o) p1 p2.

(** *** ratioTest *)

(** The loop of [ratioTest] from the iterator position [matches] on, with
    the counter [removed] so far: the counter and the entries at the end. *)
Fixpoint ratioTest_loop (ratio : IEEE.float) (matches : list (list cv.DMatch))
    (removed : Z) : Z * list (list cv.DMatch) :=
  match matches with
  | [] => (removed, [])
  | entry :: rest =>
      match entry with
      | m0 :: m1 :: _ =>
          (* matchIterator->size() > 1 *)
          if IEEE.fgt (IEEE.fdiv (cv.distance m0) (cv.distance m1)) ratio then
            let '(n, rest') := ratioTest_loop ratio rest (int_incr removed) in
            (n, [] :: rest')
          else
            let '(n, rest') := ratioTest_loop ratio rest removed in
            (n, entry :: rest')
      | _ =>
          let '(n, rest') := ratioTest_loop ratio rest (int_incr removed) in
          (n, [] :: rest')
      end
  end.

(** [int ratioTest(vector<vector<cv::DMatch> >& matches)]: the returned
    counter and the vector as the method leaves it. *)
Definition ratioTest (matches : list (list cv.DMatch))
    : M exn RobustMatcher (Z * list (list cv.DMatch)) :=
  r <- gets ratio ;;
  ret (ratioTest_loop r matches 0).

(** *** symmetryTest *)

(** The inner loop, for the rank-0 neighbour [m1] of an entry of
    [matches1]: the match pushed at the first symmetric entry of
    [matches2], where the loop breaks. *)
Fixpoint symmetryTest_inner (m1 : cv.DMatch) (matches2 : list (list cv.DMatch))
    : option cv.DMatch :=
  match matches2 with
  | [] => None
  | entry2 :: rest2 =>
      match entry2 with
      | m2 :: _ :: _ =>
          if (cv.queryIdx m1 =? cv.trainIdx m2) && (cv.queryIdx m2 =? cv.trainIdx m1)
          then Some (cv.DMatch3 (cv.queryIdx m1) (cv.trainIdx m1) (cv.distance m1))
          else symmetryTest_inner m1 rest2
      | _ => symmetryTest_inner m1 rest2  (* size() < 2: continue *)
      end
  end.

(** The outer loop from the iterator position [matches1] on. *)
Fixpoint symmetryTest_loop (matches1 matches2 : list (list cv.DMatch))
    (symMatches : list cv.DMatch) : list cv.DMatch :=
  match matches1 with
  | [] => symMatches
  | entry1 :: rest1 =>
      match entry1 with
      | m1 :: _ :: _ =>
          match symmetryTest_inner m1 matches2 with
          | Some m => symmetryTest_loop rest1 matches2 (symMatches ++ [m])
          | None => symmetryTest_loop rest1 matches2 symMatches
          end
      | _ => symmetryTest_loop rest1 matches2 symMatches  (* size() < 2: continue *)
      end
  end.

(** [void symmetryTest(matches1, matches2, symMatches)]: the vector
    [symMatches] as the method leaves it. *)
Definition symmetryTest (matches1 matches2 : list (list cv.DMatch))
    (symMatches : list cv.DMatch) : M exn RobustMatcher (list cv.DMatch) :=
  ret (symmetryTest_loop matches1 matches2 symMatches).

(** *** ransacTest *)

(** The object together with the vector bound to the reference parameter
    [outMatches]. *)
Record Frame := mkFrame {
  this : RobustMatcher;
  outMatches : list cv.DMatch
}.

Definition push_points1 (p : cv.Point2f) (f : Frame) : Frame :=
  mkFrame (with_points (points1 (this f) ++ [p]) (points2 (this f)) (this f))
    (outMatches f).

Definition push_points2 (p : cv.Point2f) (f : Frame) : Frame :=
  mkFrame (with_points (points1 (this f)) (points2 (this f) ++ [p]) (this f))
    (outMatches f).

Definition clear_points (f : Frame) : Frame :=
  mkFrame (with_points [] [] (this f)) (outMatches f).

Definition push_outMatches (m : cv.DMatch) (f : Frame) : Frame :=
  mkFrame (this f) (outMatches f ++ [m]).

(** "Convert keypoints into Point2f": the loop that pushes the two
    keypoint positions of every match on [points1] and [points2]. *)
Fixpoint convert_loop (matches : list cv.DMatch)
    (keypoints1 keypoints2 : list cv.KeyPoint) : M exn Frame unit :=
  match matches with
  | [] => ret tt
  | it :: rest =>
      kp1 <- read_at keypoints1 (cv.queryIdx it) ;;
      modify (push_points1 (cv.mkPoint2f (cv.x (cv.pt kp1)) (cv.y (cv.pt kp1)))) ;;;
      kp2 <- read_at keypoints2 (cv.trainIdx it) ;;
      modify (push_points2 (cv.mkPoint2f (cv.x (cv.pt kp2)) (cv.y (cv.pt kp2)))) ;;;
      convert_loop rest keypoints1 keypoints2
  end.

(** The two calls of the estimator. *)
Definition call_RANSAC (p1 p2 : list cv.Point2f) (d c : IEEE.double)
    : M exn Frame (Mat * list Z) :=
  fun f =>
    match findFundamentalMat_RANSAC p1 p2 d c with
    | inl e => (Thrown e, f, [FM_RANSAC p1 p2 d c])
    | inr r => (Returned r, f, [FM_RANSAC p1 p2 d c])
    end.

Definition call_8POINT (p1 p2 : list cv.Point2f) : M exn Frame Mat :=
  fun f =>
    match findFundamentalMat_8POINT p1 p2 with
    | inl e => (Thrown e, f, [FM_8POINT p1 p2])
    | inr r => (Returned r, f, [FM_8POINT p1 p2])
    end.

(** "extract the surviving (inliers) matches": [itIn] runs over the mask
    and [itM] over [matches], side by side, until the end of the mask.
    Once [itM] is at [matches.end()], reading or advancing it is
    undefined. *)
Fixpoint extract_loop (inliers : list Z) (matches : list cv.DMatch)
    : M exn Frame unit :=
  match inliers with
  | [] => ret tt
  | b :: inliers' =>
      match matches with
      | m :: matches' =>
          (if negb (b =? 0) then modify (push_outMatches m) else ret tt) ;;;
          extract_loop inliers' matches'
      | [] => undefined
      end
  end.

(** [cv::Mat ransacTest(matches, keypoints1, keypoints2, outMatches)] *)
Definition ransacTest (matches : list cv.DMatch)
    (keypoints1 keypoints2 : list cv.KeyPoint) : M exn Frame Mat :=
  convert_loop matches keypoints1 keypoints2 ;;;
  p1 <- gets (fun f => points1 (this f)) ;;
  p2 <- gets (fun f => points2 (this f)) ;;
  d <- gets (fun f => distance (this f)) ;;
  c <- gets (fun f => confidence (this f)) ;;
  r <- call_RANSAC p1 p2 d c ;;
  let fundemental := r.1 in
  let inliers := r.2 in
  extract_loop inliers matches ;;;
  refine <- gets (fun f => refineF (this f)) ;;
  if refine : bool then
    modify clear_points ;;;
    out <- gets outMatches ;;
    convert_loop out keypoints1 keypoints2 ;;;
    p1 <- gets (fun f => points1 (this f)) ;;
    p2 <- gets (fun f => points2 (this f)) ;;
    call_8POINT p1 p2
  else
    ret fundemental.

(** *** match *)

(** A method of the object alone, run inside a frame. *)
Definition on_this {A} (m : M exn RobustMatcher A) : M exn Frame A :=
  fun f =>
    let '(r, o, tr) := m (this f) in (r, mkFrame o (outMatches f), tr).

(** [cv::Mat match(image1, image2, matches, keypoints1, keypoints2)]: the
    returned matrix and the two keypoint vectors as they stand when the
    method returns; [matches] is the [outMatches] of the frame. An
    exception of the detector, of the extractor or of the matcher leaves
    the method where it is thrown. *)
Definition match_ (image1 image2 : Image)
    : M exn Frame (Mat * list cv.KeyPoint * list cv.KeyPoint) :=
  (* 1a. detection *)
  detect <- gets (fun f => detector (this f)) ;;
  keypoints1 <- external (detect image1) ;;
  keypoints2 <- external (detect image2) ;;
  (* 1b. extraction *)
  compute <- gets (fun f => extractor (this f)) ;;
  c1 <- external (compute image1 keypoints1) ;;
  let '(keypoints1, descriptors1) := c1 in
  c2 <- external (compute image2 keypoints2) ;;
  let '(keypoints2, descriptors2) := c2 in
  (* 2. k nearest neighbours, both ways *)
  matches1 <- external (knnMatch descriptors1 descriptors2 2) ;;
  matches2 <- external (knnMatch descriptors2 descriptors1 2) ;;
  (* 3. ratio test *)
  r1 <- on_this (ratioTest matches1) ;;
  r2 <- on_this (ratioTest matches2) ;;
  (* 4. symmetry test *)
  symMatches <- on_this (symmetryTest r1.2 r2.2 []) ;;
  (* 5. RANSAC *)
  fundemental <- ransacTest symMatches keypoints1 keypoints2 ;;
  ret (fundemental, keypoints1, keypoints2).

End RobustMatcher.

(** ** Characterisations used in the statements *)

Section Characterisations.

Context {opencv : OpenCV}.

(** The quotient the ratio test looks at, for an entry with two
    neighbours. *)
Definition ratio_quotient (m0 m1 : cv.DMatch) : IEEE.float :=
  IEEE.fdiv (cv.distance m0) (cv.distance m1).

(** An entry survives [ratioTest]: two neighbours at least, and the
    quotient not above the threshold. *)
Definition ratio_keeps (ratio : IEEE.float) (entry : list cv.DMatch) : bool :=
  match entry with
  | m0 :: m1 :: _ => negb (IEEE.fgt (ratio_quotient m0 m1) ratio)
  | _ => false
  end.

(** The entry [ratioTest] leaves in the place of [entry]. *)
Definition ratio_filtered (ratio : IEEE.float) (entry : list cv.DMatch)
    : list cv.DMatch :=
  if ratio_keeps ratio entry then entry else [].

(** The keeping rule in the words of the specification: two neighbours at
    least, and the quotient less than or equal to the threshold. *)
Definition ratio_keeps_spec (ratio : IEEE.float) (entry : list cv.DMatch) : bool :=
  match entry with
  | m0 :: m1 :: _ => IEEE.fle (ratio_quotient m0 m1) ratio
  | _ => false
  end.

(** [ratioTest] clears the entry. *)
Definition cleared (ratio : IEEE.float) (entry : list cv.DMatch) : bool :=
  negb (ratio_keeps ratio entry).

(** Entries with fewer than two neighbours, and entries with two
    neighbours whose quotient is above the threshold. *)
Definition few_neighbours (entry : list cv.DMatch) : bool :=
  (length entry <? 2)%nat.

Definition fails_ratio (ratio : IEEE.float) (entry : list cv.DMatch) : bool :=
  match entry with
  | m0 :: m1 :: _ => IEEE.fgt (ratio_quotient m0 m1) ratio
  | _ => false
  end.

Definition count (p : list cv.DMatch -> bool) (matches : list (list cv.DMatch)) : Z :=
  Z.of_nat (length (List.filter p matches)).

(** Entries that still stand for a match: at least two neighbours. *)
Definition survives (entry : list cv.DMatch) : bool := (2 <=? length entry)%nat.

Definition is_empty (entry : list cv.DMatch) : bool :=
  match entry with [] => true | _ => false end.

(** An entry whose rank-0 neighbour goes from [i] to [j]. *)
Definition best_is (entry : list cv.DMatch) (i j : Z) : Prop :=
  (2 <= length entry)%nat /\
  exists m, head entry = Some m /\ cv.queryIdx m = i /\ cv.trainIdx m = j.

(** [(i, j)] is mutually top-ranked in the two neighbour tables. *)
Definition mutual_best (matches1 matches2 : list (list cv.DMatch)) (i j : Z) : Prop :=
  (exists e1, e1 ∈ matches1 /\ best_is e1 i j) /\
  (exists e2, e2 ∈ matches2 /\ best_is e2 j i).

(** The correspondence [symmetryTest] pushes for an entry of [matches1]. *)
Definition pushed_for (entry : list cv.DMatch) (m : cv.DMatch) : Prop :=
  exists m1, head entry = Some m1 /\
    m = cv.DMatch3 (cv.queryIdx m1) (cv.trainIdx m1) (cv.distance m1).

(** What the outer loop of [symmetryTest] pushes for one entry of
    [matches1], if anything. *)
Definition symmetric_for (matches2 : list (list cv.DMatch))
    (entry1 : list cv.DMatch) : option cv.DMatch :=
  match entry1 with
  | m1 :: _ :: _ => symmetryTest_inner m1 matches2
  | _ => None
  end.

(** [(i, j)] are the indices of a correspondence of [out]. *)
Definition appears (i j : Z) (out : list cv.DMatch) : Prop :=
  exists m, m ∈ out /\ cv.queryIdx m = i /\ cv.trainIdx m = j.

(** The position [ransacTest] pushes for a keypoint. *)
Definition position (kp : cv.KeyPoint) : cv.Point2f :=
  cv.mkPoint2f (cv.x (cv.pt kp)) (cv.y (cv.pt kp)).

(** The point pairs of a sequence of correspondences, pair [i] for
    correspondence [i]; [None] when an index is outside its keypoint
    vector. *)
Fixpoint points_of (matches : list cv.DMatch)
    (keypoints1 keypoints2 : list cv.KeyPoint)
    : option (list cv.Point2f * list cv.Point2f) :=
  match matches with
  | [] => Some ([], [])
  | it :: rest =>
      match vector_at keypoints1 (cv.queryIdx it),
            vector_at keypoints2 (cv.trainIdx it),
            points_of rest keypoints1 keypoints2 with
      | Some kp1, Some kp2, Some (p1, p2) =>
          Some (position kp1 :: p1, position kp2 :: p2)
      | _, _, _ => None
      end
  end.

(** The correspondences a mask selects, mask and correspondences side by
    side. *)
Fixpoint select_inliers (inliers : list Z) (matches : list cv.DMatch)
    : list cv.DMatch :=
  match inliers, matches with
  | b :: inliers', m :: matches' =>
      if negb (b =? 0) then m :: select_inliers inliers' matches'
      else select_inliers inliers' matches'
  | _, _ => []
  end.

(** The frame with the refinement flag set to [flag]. *)
Definition with_refineF (flag : bool) (f : Frame) : Frame :=
  mkFrame (refineFundamental flag (this f)) (outMatches f).

(** The runs of [ransacTest matches keypoints1 keypoints2] from the frame
    [f], case by case. *)
Inductive ransacTest_run (matches : list cv.DMatch)
    (keypoints1 keypoints2 : list cv.KeyPoint) (f : Frame)
    : result exn Mat * Frame * list call -> Prop :=
| run_index_outside f' :
    points_of matches keypoints1 keypoints2 = None ->
    outMatches f' = outMatches f ->
    ransacTest_run matches keypoints1 keypoints2 f (Undefined, f', [])
| run_RANSAC_throws p1 p2 e :
    points_of matches keypoints1 keypoints2 = Some (p1, p2) ->
    let q1 := points1 (this f) ++ p1 in
    let q2 := points2 (this f) ++ p2 in
    let c := FM_RANSAC q1 q2 (distance (this f)) (confidence (this f)) in
    findFundamentalMat_RANSAC q1 q2 (distance (this f)) (confidence (this f)) = inl e ->
    ransacTest_run matches keypoints1 keypoints2 f
      (Thrown e, mkFrame (with_points q1 q2 (this f)) (outMatches f), [c])
| run_mask_longer p1 p2 F0 mask :
    points_of matches keypoints1 keypoints2 = Some (p1, p2) ->
    let q1 := points1 (this f) ++ p1 in
    let q2 := points2 (this f) ++ p2 in
    let c := FM_RANSAC q1 q2 (distance (this f)) (confidence (this f)) in
    findFundamentalMat_RANSAC q1 q2 (distance (this f)) (confidence (this f)) = inr (F0, mask) ->
    (length matches < length mask)%nat ->
    ransacTest_run matches keypoints1 keypoints2 f
      (Undefined,
       mkFrame (with_points q1 q2 (this f)) (outMatches f ++ select_inliers mask matches),
       [c])
| run_unrefined p1 p2 F0 mask :
    points_of matches keypoints1 keypoints2 = Some (p1, p2) ->
    let q1 := points1 (this f) ++ p1 in
    let q2 := points2 (this f) ++ p2 in
    let c := FM_RANSAC q1 q2 (distance (this f)) (confidence (this f)) in
    findFundamentalMat_RANSAC q1 q2 (distance (this f)) (confidence (this f)) = inr (F0, mask) ->
    (length mask <= length matches)%nat ->
    refineF (this f) = false ->
    ransacTest_run matches keypoints1 keypoints2 f
      (Returned F0,
       mkFrame (with_points q1 q2 (this f)) (outMatches f ++ select_inliers mask matches),
       [c])
| run_refine_index_outside p1 p2 F0 mask f' :
    points_of matches keypoints1 keypoints2 = Some (p1, p2) ->
    let q1 := points1 (this f) ++ p1 in
    let q2 := points2 (this f) ++ p2 in
    let c := FM_RANSAC q1 q2 (distance (this f)) (confidence (this f)) in
    findFundamentalMat_RANSAC q1 q2 (distance (this f)) (confidence (this f)) = inr (F0, mask) ->
    (length mask <= length matches)%nat ->
    refineF (this f) = true ->
    let out := outMatches f ++ select_inliers mask matches in
    points_of out keypoints1 keypoints2 = None ->
    outMatches f' = out ->
    ransacTest_run matches keypoints1 keypoints2 f (Undefined, f', [c])
| run_8POINT_throws p1 p2 F0 mask r1 r2 e :
    points_of matches keypoints1 keypoints2 = Some (p1, p2) ->
    let q1 := points1 (this f) ++ p1 in
    let q2 := points2 (this f) ++ p2 in
    let c := FM_RANSAC q1 q2 (distance (this f)) (confidence (this f)) in
    findFundamentalMat_RANSAC q1 q2 (distance (this f)) (confidence (this f)) = inr (F0, mask) ->
    (length mask <= length matches)%nat ->
    refineF (this f) = true ->
    let out := outMatches f ++ select_inliers mask matches in
    points_of out keypoints1 keypoints2 = Some (r1, r2) ->
    findFundamentalMat_8POINT r1 r2 = inl e ->
    ransacTest_run matches keypoints1 keypoints2 f
      (Thrown e, mkFrame (with_points r1 r2 (this f)) out, [c; FM_8POINT r1 r2])
| run_refined p1 p2 F0 mask r1 r2 F :
    points_of matches keypoints1 keypoints2 = Some (p1, p2) ->
    let q1 := points1 (this f) ++ p1 in
    let q2 := points2 (this f) ++ p2 in
    let c := FM_RANSAC q1 q2 (distance (this f)) (confidence (this f)) in
    findFundamentalMat_RANSAC q1 q2 (distance (this f)) (confidence (this f)) = inr (F0, mask) ->
    (length mask <= length matches)%nat ->
    refineF (this f) = true ->
    let out := outMatches f ++ select_inliers mask matches in
    points_of out keypoints1 keypoints2 = Some (r1, r2) ->
    findFundamentalMat_8POINT r1 r2 = inr F ->
    ransacTest_run matches keypoints1 keypoints2 f
      (Returned F, mkFrame (with_points r1 r2 (this f)) out, [c; FM_8POINT r1 r2]).

(** What the detector, the extractor and the matcher give [match], in
    the order of its calls: the keypoints of the two images as the
    extractor leaves them and the two neighbour tables, or the first
    exception thrown. *)
Definition match_prepared (o : RobustMatcher) (image1 image2 : Image)
    : exn + (list cv.KeyPoint * list cv.KeyPoint *
             list (list cv.DMatch) * list (list cv.DMatch)) :=
  match detector o image1 with
  | inl e => inl e
  | inr detected1 =>
  match detector o image2 with
  | inl e => inl e
  | inr detected2 =>
  match extractor o image1 detected1 with
  | inl e => inl e
  | inr (keypoints1, descriptors1) =>
  match extractor o image2 detected2 with
  | inl e => inl e
  | inr (keypoints2, descriptors2) =>
  match knnMatch descriptors1 descriptors2 2 with
  | inl e => inl e
  | inr matches1 =>
  match knnMatch descriptors2 descriptors1 2 with
  | inl e => inl e
  | inr matches2 => inr (keypoints1, keypoints2, matches1, matches2)
  end end end end end end.

(** The symmetric correspondences of two raw neighbour tables: the ratio
    test on each with the threshold of the object, then the symmetry
    test. *)
Definition match_symmetric (o : RobustMatcher)
    (matches1 matches2 : list (list cv.DMatch)) : list cv.DMatch :=
  symmetryTest_loop (map (ratio_filtered (ratio o)) matches1)
    (map (ratio_filtered (ratio o)) matches2) [].

(** [ratioTest] as the specification words it: kept exactly when the
    quotient is less than or equal to the threshold, and the number of
    the other entries returned. *)
Definition ratioTest_as_specified (o : RobustMatcher)
    (matches : list (list cv.DMatch)) : Prop :=
  outcome (ratioTest matches o) =
  Returned (count (fun e => negb (ratio_keeps_spec (ratio o) e)) matches,
            map (fun e => if ratio_keeps_spec (ratio o) e then e else []) matches).

(** The refinement as the specification words it: the exact estimate is
    made from the point pairs of the inliers of this call alone. *)
Definition refines_from_inliers_only (matches : list cv.DMatch)
    (keypoints1 keypoints2 : list cv.KeyPoint) (f : Frame) : Prop :=
  forall F f' tr,
    ransacTest matches keypoints1 keypoints2 f = (Returned F, f', tr) ->
    exists inliers r1 r2,
      outMatches f' = outMatches f ++ inliers /\
      points_of inliers keypoints1 keypoints2 = Some (r1, r2) /\
      FM_8POINT r1 r2 ∈ tr /\
      findFundamentalMat_8POINT r1 r2 = inr F.

(** What the specification asks of a call with fewer than eight
    correspondences: an error, and no call of the estimator. *)
Definition signals_InsufficientCorrespondences {S A}
    (run : result exn A * S * list call) : Prop :=
  (exists e, outcome run = Thrown e) /\ calls run = [].

(** The query indices of the best neighbours of the surviving entries of a
    table, in the order of the table. *)
Definition best_queries (matches : list (list cv.DMatch)) : list Z :=
  omap (fun entry => if survives entry then cv.queryIdx <$> head entry else None)
    matches.

(** The two indices of a correspondence are inside the keypoint vectors. *)
Definition in_range (keypoints1 keypoints2 : list cv.KeyPoint) (m : cv.DMatch) : Prop :=
  is_Some (vector_at keypoints1 (cv.queryIdx m)) /\
  is_Some (vector_at keypoints2 (cv.trainIdx m)).

(** A call whose two point sequences have the same length. *)
Definition same_lengths (c : call) : Prop :=
  match c with
  | FM_RANSAC a b _ _ => length a = length b
  | FM_8POINT a b => length a = length b
  end.

Definition is_robust_call (c : call) : bool :=
  match c with
  | FM_RANSAC _ _ _ _ => true
  | FM_8POINT _ _ => false
  end.

(** The correspondences whose mask byte is not zero, mask and
    correspondences paired position by position. *)
Definition marked (inliers : list Z) (matches : list cv.DMatch) : list cv.DMatch :=
  map snd (List.filter (fun p => negb (p.1 =? 0)) (combine inliers matches)).

End Characterisations.

(** ** A concrete OpenCV for the examples: a rectified stereo pair *)

Module Fixture.

(** [m * 2^e] as a binary32 number. *)
Definition flt (m e : Z) : IEEE.float := binary_normalize 24 128 m e false.

Inductive cvException : Type := cvError (code : Z).

(** In a rectified pair the epipolar lines are the image rows: a point
    pair is an inlier when the two points lie on the same row. *)
Definition same_row (p q : cv.Point2f) : Z :=
  if SFeqb (cv.y p) (cv.y q) then 1 else 0.

Fixpoint rows_mask (p1 p2 : list cv.Point2f) : list Z :=
  match p1, p2 with
  | a :: p1', b :: p2' => same_row a b :: rows_mask p1' p2'
  | _, _ => []
  end.

(** The estimators answer with the call itself in the place of the
    matrix, so that a returned matrix tells which estimate it is; they
    refuse two point sequences of different lengths, as OpenCV does. *)
Definition estimate_RANSAC (p1 p2 : list cv.Point2f) (d c : IEEE.double)
    : cvException + (call * list Z) :=
  if (length p1 =? length p2)%nat
  then inr (FM_RANSAC p1 p2 d c, rows_mask p1 p2)
  else inl (cvError (-215)).

Definition estimate_8POINT (p1 p2 : list cv.Point2f) : cvException + call :=
  if (length p1 =? length p2)%nat
  then inr (FM_8POINT p1 p2)
  else inl (cvError (-215)).

(** An image is given by the keypoints the detector finds in it and the
    neighbour table of its descriptors towards the other image. *)
Definition stereo : OpenCV :=
  {| Image := list cv.KeyPoint * list (list cv.DMatch);
     Descriptors := list (list cv.DMatch);
     Mat := call;
     exn := cvException;
     knnMatch := fun query _ k => inr (map (take (Z.to_nat k)) query);
     findFundamentalMat_RANSAC := estimate_RANSAC;
     findFundamentalMat_8POINT := estimate_8POINT;
     SurfFeatureDetector := fun image => inr image.1;
     SurfDescriptorExtractor := fun image keypoints => inr (keypoints, image.2) |}.

Definition keypoint (x y : Z) : cv.KeyPoint :=
  cv.mkKeyPoint (cv.mkPoint2f (flt x 0) (flt y 0)) (flt 1 0) (flt 0 0) (flt 0 0) 0 (-1).

Definition neighbour (q t : Z) (d : IEEE.float) : cv.DMatch := cv.mkDMatch q t 0 d.

Definition keypointsL : list cv.KeyPoint := [keypoint 10 5; keypoint 20 7; keypoint 30 9].
Definition keypointsR : list cv.KeyPoint := [keypoint 12 5; keypoint 25 8; keypoint 33 9].

(** Left to right: query 0 is decisive, query 1 is ambiguous, query 2 sits
    exactly at the threshold 0.65f. *)
Definition tableL : list (list cv.DMatch) :=
  [ [neighbour 0 0 (flt 13421773 (-26)); neighbour 0 1 (flt 1 0)];
    [neighbour 1 1 (flt 1 (-1)); neighbour 1 2 (flt 1 (-1))];
    [neighbour 2 2 IEEE.f0_65; neighbour 2 0 (flt 1 0)] ].

(** Right to left: query 2 has a single neighbour. *)
Definition tableR : list (list cv.DMatch) :=
  [ [neighbour 0 0 (flt 13421773 (-26)); neighbour 0 2 (flt 1 0)];
    [neighbour 1 1 (flt 1 (-2)); neighbour 1 0 (flt 1 0)];
    [neighbour 2 2 (flt 1 (-2))] ].

Definition imageL : @Image stereo := (keypointsL, tableL).
Definition imageR : @Image stereo := (keypointsR, tableR).

(** Three correspondences; the middle one joins two different rows. *)
Definition three : list cv.DMatch :=
  [ cv.DMatch3 0 0 (flt 1 (-2)); cv.DMatch3 1 1 (flt 1 (-2)); cv.DMatch3 2 2 (flt 1 (-2)) ].

(** An entry whose two neighbours are both at distance zero. *)
Definition twins : list cv.DMatch := [neighbour 0 0 (S754_zero false); neighbour 0 1 (S754_zero false)].

(** The default matcher, and a call frame on it with an empty or a used
    output vector. *)
Definition matcher : @RobustMatcher stereo := @RobustMatcher_new stereo.
Definition fresh : @Frame stereo := mkFrame matcher [].
Definition used : @Frame stereo := mkFrame matcher [cv.DMatch3 1 1 (flt 1 0)].


(** A frame whose two public buffers were given different lengths by the
    caller, and a correspondence joining two different rows. *)
Definition skewed : @Frame stereo :=
  mkFrame (with_points [cv.mkPoint2f (flt 1 0) (flt 1 0)] [] matcher) [].

(** A correspondence whose query index is outside the three keypoints. *)
Definition astray : list cv.DMatch := [cv.DMatch3 5 0 (flt 1 (-2))].

End Fixture.

(** ** Properties *)

(** *** Comparisons of IEEE numbers *)

Lemma SFcompare_swap (a b : spec_float) :
  SFcompare b a = CompOpp <$> SFcompare a b.
Proof.
  destruct a as [sa|sa| |sa ma ea], b as [sb|sb| |sb mb eb]; simpl;
    try reflexivity;
    try (destruct sa; reflexivity);
    try (destruct sb; reflexivity);
    try (destruct sa, sb; reflexivity).
  destruct sa, sb; simpl; try reflexivity;
    rewrite (Z.compare_antisym ea eb);
    destruct (ea ?= eb) eqn:He; simpl; try reflexivity;
    rewrite !Pos.compare_cont_spec, (Pos.compare_antisym ma mb); simpl;
    destruct (ma ?= mb)%positive; reflexivity.
Qed.

(** Away from NaN, "not greater" is "less than or equal". *)
Lemma fgt_false_fle (a b : spec_float) :
  IEEE.is_nan a = false -> IEEE.is_nan b = false ->
  negb (IEEE.fgt a b) = IEEE.fle a b.
Proof.
  intros Ha Hb. unfold IEEE.fgt, IEEE.fle, SFltb, SFleb.
  rewrite (SFcompare_swap a b).
  assert (Hc : exists c, SFcompare a b = Some c).
  { destruct a as [sa|sa| |sa ma ea], b as [sb|sb| |sb mb eb];
      try discriminate; simpl; eauto. }
  destruct Hc as [c ->]. destruct c; reflexivity.
Qed.

(** A number is never greater than itself. *)
Lemma fgt_irrefl (a : spec_float) : IEEE.fgt a a = false.
Proof.
  unfold IEEE.fgt, SFltb.
  destruct a as [s|s| |s m e]; simpl; try reflexivity;
    try (destruct s; reflexivity).
  destruct s; rewrite Z.compare_refl, Pos.compare_cont_refl; reflexivity.
Qed.

(** The literals of the constructor are numbers of their formats. *)
Lemma literals_valid :
  valid_binary 24 128 IEEE.f0_65 = true /\
  valid_binary 53 1024 IEEE.d0_99 = true /\
  valid_binary 53 1024 IEEE.d3_0 = true.
Proof. repeat split; vm_compute; reflexivity. Qed.

(** *** The 32-bit counter *)

Lemma wrap_int_small (z : Z) : -2147483648 <= z <= INT_MAX -> wrap_int z = z.
Proof.
  unfold wrap_int, INT_MAX. intros Hz.
  rewrite Z.mod_small by lia. lia.
Qed.

Lemma wrap_int_add (a b : Z) : wrap_int (wrap_int a + b) = wrap_int (a + b).
Proof.
  unfold wrap_int. f_equal.
  replace ((a + 2147483648) mod 4294967296 - 2147483648 + b + 2147483648)
    with ((a + 2147483648) mod 4294967296 + b) by lia.
  rewrite Zplus_mod_idemp_l. f_equal. lia.
Qed.

Section Properties.

Context {opencv : OpenCV}.

(** *** ratioTest *)

Lemma ratioTest_loop_entries (r : IEEE.float) (matches : list (list cv.DMatch)) :
  forall removed,
    (ratioTest_loop r matches removed).2 = map (ratio_filtered r) matches.
Proof.
  induction matches as [|entry rest IH]; intros removed; simpl; [reflexivity|].
  unfold ratio_filtered at 1, ratio_keeps, ratio_quotient.
  destruct entry as [|m0 [|m1 tl]]; simpl.
  - specialize (IH (int_incr removed)).
    destruct (ratioTest_loop r rest (int_incr removed)); simpl in *; congruence.
  - specialize (IH (int_incr removed)).
    destruct (ratioTest_loop r rest (int_incr removed)); simpl in *; congruence.
  - destruct (IEEE.fgt _ r); simpl.
    + specialize (IH (int_incr removed)).
      destruct (ratioTest_loop r rest (int_incr removed)); simpl in *; congruence.
    + specialize (IH removed).
      destruct (ratioTest_loop r rest removed); simpl in *; congruence.
Qed.

Lemma count_nonneg (p : list cv.DMatch -> bool) (matches : list (list cv.DMatch)) :
  0 <= count p matches <= Z.of_nat (length matches).
Proof.
  unfold count. pose proof (List.filter_length_le p matches). lia.
Qed.

Lemma count_cons (p : list cv.DMatch -> bool) entry rest :
  count p (entry :: rest) = (if p entry then 1 else 0) + count p rest.
Proof.
  unfold count. simpl. destruct (p entry); simpl; lia.
Qed.

(** The counter at the end of the loop: one wrapped increment for every
    cleared entry. *)
Lemma ratioTest_loop_counter (r : IEEE.float) (matches : list (list cv.DMatch)) :
  forall removed,
    (ratioTest_loop r matches removed).1 =
    if count (cleared r) matches =? 0 then removed
    else wrap_int (removed + count (cleared r) matches).
Proof.
  induction matches as [|entry rest IH]; intros removed; [reflexivity|].
  rewrite count_cons.
  pose proof (count_nonneg (cleared r) rest) as Hc.
  assert (Hstep : forall n, cleared r entry = true ->
            (ratioTest_loop r (entry :: rest) n).1 =
            (ratioTest_loop r rest (int_incr n)).1).
  { intros n. unfold cleared, ratio_keeps, ratio_quotient. simpl.
    destruct entry as [|m0 [|m1 tl]]; simpl;
      try (intros _; destruct (ratioTest_loop r rest (int_incr n)); reflexivity).
    destruct (IEEE.fgt _ r); simpl; [|discriminate].
    intros _; destruct (ratioTest_loop r rest (int_incr n)); reflexivity. }
  assert (Hskip : forall n, cleared r entry = false ->
            (ratioTest_loop r (entry :: rest) n).1 =
            (ratioTest_loop r rest n).1).
  { intros n. unfold cleared, ratio_keeps, ratio_quotient. simpl.
    destruct entry as [|m0 [|m1 tl]]; simpl; try discriminate.
    destruct (IEEE.fgt _ r); simpl; [discriminate|].
    intros _; destruct (ratioTest_loop r rest n); reflexivity. }
  destruct (cleared r entry) eqn:Hcl.
  - rewrite Hstep, IH by reflexivity.
    destruct (count (cleared r) rest =? 0) eqn:H0.
    + apply Z.eqb_eq in H0. rewrite H0.
      replace (1 + 0 =? 0) with false by reflexivity.
      unfold int_incr. f_equal; lia.
    + apply Z.eqb_neq in H0.
      replace (1 + count (cleared r) rest =? 0) with false
        by (symmetry; apply Z.eqb_neq; lia).
      unfold int_incr. rewrite wrap_int_add. f_equal; lia.
  - rewrite Hskip, IH by reflexivity. reflexivity.
Qed.

(** [ratioTest] in one equation: the counter, the entries, the object
    untouched and no call of the estimator. *)
Lemma ratioTest_run (o : RobustMatcher) (matches : list (list cv.DMatch)) :
  ratioTest matches o =
  (Returned (wrap_int (count (cleared (ratio o)) matches),
             map (ratio_filtered (ratio o)) matches), o, []).
Proof.
  unfold ratioTest, bind, gets, ret. simpl.
  rewrite (surjective_pairing (ratioTest_loop (ratio o) matches 0)).
  rewrite ratioTest_loop_entries, ratioTest_loop_counter.
  destruct (count (cleared (ratio o)) matches =? 0) eqn:H0; [|reflexivity].
  apply Z.eqb_eq in H0. rewrite H0. reflexivity.
Qed.

Lemma count_cleared_split (r : IEEE.float) (matches : list (list cv.DMatch)) :
  count (cleared r) matches =
  count few_neighbours matches + count (fails_ratio r) matches.
Proof.
  induction matches as [|entry rest IH]; [reflexivity|].
  rewrite !count_cons, IH.
  unfold cleared, ratio_keeps, few_neighbours, fails_ratio.
  destruct entry as [|m0 [|m1 tl]]; simpl; try lia.
  destruct (IEEE.fgt _ r); simpl; lia.
Qed.

Lemma ratio_filtered_idem (r : IEEE.float) (entry : list cv.DMatch) :
  ratio_filtered r (ratio_filtered r entry) = ratio_filtered r entry.
Proof.
  unfold ratio_filtered. destruct (ratio_keeps r entry) eqn:Hk.
  - rewrite Hk. reflexivity.
  - reflexivity.
Qed.

Lemma map_filtered_idem (r : IEEE.float) (matches : list (list cv.DMatch)) :
  map (ratio_filtered r) (map (ratio_filtered r) matches) =
  map (ratio_filtered r) matches.
Proof.
  induction matches as [|entry rest IH]; [reflexivity|].
  simpl. rewrite ratio_filtered_idem, IH. reflexivity.
Qed.

Lemma cleared_filtered (r : IEEE.float) (entry : list cv.DMatch) :
  cleared r (ratio_filtered r entry) = cleared r entry.
Proof.
  unfold cleared, ratio_filtered. destruct (ratio_keeps r entry) eqn:Hk.
  - rewrite Hk. reflexivity.
  - reflexivity.
Qed.

Lemma count_map_filtered (r : IEEE.float) (matches : list (list cv.DMatch)) :
  count (cleared r) (map (ratio_filtered r) matches) = count (cleared r) matches.
Proof.
  induction matches as [|entry rest IH]; [reflexivity|].
  simpl map. rewrite !count_cons, IH, cleared_filtered. reflexivity.
Qed.

Lemma is_empty_filtered (r : IEEE.float) (entry : list cv.DMatch) :
  is_empty (ratio_filtered r entry) = cleared r entry.
Proof.
  unfold cleared, ratio_filtered, ratio_keeps.
  destruct entry as [|m0 [|m1 tl]]; simpl; try reflexivity.
  destruct (IEEE.fgt _ r); reflexivity.
Qed.

Lemma count_empty_filtered (r : IEEE.float) (matches : list (list cv.DMatch)) :
  count is_empty (map (ratio_filtered r) matches) = count (cleared r) matches.
Proof.
  induction matches as [|entry rest IH]; [reflexivity|].
  simpl map. rewrite !count_cons, IH, is_empty_filtered. reflexivity.
Qed.

(** *** symmetryTest *)

Lemma symmetryTest_inner_spec (m1 : cv.DMatch) (matches2 : list (list cv.DMatch))
    (m : cv.DMatch) :
  symmetryTest_inner m1 matches2 = Some m <->
  m = cv.DMatch3 (cv.queryIdx m1) (cv.trainIdx m1) (cv.distance m1) /\
  exists e2, e2 ∈ matches2 /\ best_is e2 (cv.trainIdx m1) (cv.queryIdx m1).
Proof.
  induction matches2 as [|entry2 rest2 IH]; simpl.
  - split; [discriminate|]. intros [_ (e2 & Hin & _)]. inversion Hin.
  - assert (Hshort : (length entry2 < 2)%nat ->
              (exists e2, e2 ∈ entry2 :: rest2 /\ best_is e2 (cv.trainIdx m1) (cv.queryIdx m1)) <->
              (exists e2, e2 ∈ rest2 /\ best_is e2 (cv.trainIdx m1) (cv.queryIdx m1))).
    { intros Hlen. split; intros (e2 & Hin & Hb).
      - apply elem_of_cons in Hin as [->|Hin]; [|eauto].
        destruct Hb as [Hb _]. lia.
      - exists e2. split; [right; exact Hin | exact Hb]. }
    destruct entry2 as [|m2 [|m2' tl]].
    + rewrite IH, Hshort by (simpl; lia). reflexivity.
    + rewrite IH, Hshort by (simpl; lia). reflexivity.
    + destruct ((cv.queryIdx m1 =? cv.trainIdx m2) && (cv.queryIdx m2 =? cv.trainIdx m1))
        eqn:Hsym.
      * apply andb_true_iff in Hsym as [H1 H2].
        apply Z.eqb_eq in H1, H2.
        split.
        -- intros [= <-]. split; [reflexivity|].
           exists (m2 :: m2' :: tl). split; [left|].
           split; [simpl; lia|]. exists m2. simpl. auto.
        -- intros [-> _]. reflexivity.
      * rewrite IH. apply and_iff_compat_l.
        split; intros (e2 & Hin & Hb).
        -- exists e2. split; [right; exact Hin | exact Hb].
        -- apply elem_of_cons in Hin as [->|Hin]; [|eauto].
           destruct Hb as [_ (mb & Hhd & Hq & Ht)]. simpl in Hhd.
           injection Hhd as <-.
           apply andb_false_iff in Hsym as [Hsym|Hsym];
             apply Z.eqb_neq in Hsym; congruence.
Qed.

(** The outer loop appends, entry by entry of [matches1], what
    [symmetric_for] gives. *)
Lemma symmetryTest_loop_omap (matches1 matches2 : list (list cv.DMatch)) :
  forall symMatches,
    symmetryTest_loop matches1 matches2 symMatches =
    symMatches ++ omap (symmetric_for matches2) matches1.
Proof.
  induction matches1 as [|entry1 rest1 IH]; intros symMatches; simpl.
  - rewrite app_nil_r. reflexivity.
  - unfold symmetric_for at 1.
    destruct entry1 as [|m1 [|m1' tl]]; try apply IH.
    destruct (symmetryTest_inner m1 matches2) as [m|]; [|apply IH].
    rewrite IH, <- app_assoc. reflexivity.
Qed.

Lemma symmetryTest_run (o : RobustMatcher) (matches1 matches2 : list (list cv.DMatch))
    (symMatches : list cv.DMatch) :
  symmetryTest matches1 matches2 symMatches o =
  (Returned (symMatches ++ omap (symmetric_for matches2) matches1), o, []).
Proof.
  unfold symmetryTest, ret. rewrite symmetryTest_loop_omap. reflexivity.
Qed.

Lemma symmetric_for_spec (matches2 : list (list cv.DMatch))
    (entry1 : list cv.DMatch) (m : cv.DMatch) :
  symmetric_for matches2 entry1 = Some m <->
  exists m1, (2 <= length entry1)%nat /\ head entry1 = Some m1 /\
    m = cv.DMatch3 (cv.queryIdx m1) (cv.trainIdx m1) (cv.distance m1) /\
    exists e2, e2 ∈ matches2 /\ best_is e2 (cv.trainIdx m1) (cv.queryIdx m1).
Proof.
  unfold symmetric_for. destruct entry1 as [|m1 [|m1' tl]]; simpl.
  - split; [discriminate|]. intros (? & ? & ? & _). lia.
  - split; [discriminate|]. intros (? & ? & ? & _). lia.
  - rewrite symmetryTest_inner_spec. split.
    + intros [-> Hp]. exists m1. repeat split; [lia|exact Hp].
    + intros (m0 & _ & [= <-] & -> & Hp). split; [reflexivity|exact Hp].
Qed.

Lemma appears_omap_mutual (matches1 matches2 : list (list cv.DMatch)) (i j : Z) :
  appears i j (omap (symmetric_for matches2) matches1) <->
  mutual_best matches1 matches2 i j.
Proof.
  unfold appears, mutual_best. split.
  - intros (m & Hin & Hq & Ht).
    apply list_elem_of_omap in Hin as (e1 & Hin1 & Hfor).
    apply symmetric_for_spec in Hfor as (m1 & Hlen & Hhd & -> & Hp).
    simpl in Hq, Ht. subst i j. split; [|exact Hp].
    exists e1. split; [exact Hin1|]. split; [exact Hlen|]. eauto.
  - intros [(e1 & Hin1 & Hlen & m1 & Hhd & Hq & Ht) Hp]. subst i j.
    exists (cv.DMatch3 (cv.queryIdx m1) (cv.trainIdx m1) (cv.distance m1)).
    split; [|split; reflexivity].
    apply list_elem_of_omap. exists e1. split; [exact Hin1|].
    apply symmetric_for_spec. exists m1. auto.
Qed.

Lemma mutual_best_swap (matches1 matches2 : list (list cv.DMatch)) (i j : Z) :
  mutual_best matches1 matches2 i j <-> mutual_best matches2 matches1 j i.
Proof. unfold mutual_best. tauto. Qed.

(** The pushed correspondences stand, one for one and in order, for a
    subsequence of the entries of [matches1]. *)
Lemma omap_symmetric_order (matches1 matches2 : list (list cv.DMatch)) :
  exists kept,
    sublist kept matches1 /\
    Forall survives kept /\
    Forall2 pushed_for kept (omap (symmetric_for matches2) matches1).
Proof.
  induction matches1 as [|entry1 rest1 (kept & Hsub & Hsurv & Hall)]; simpl.
  - exists []. repeat split; constructor.
  - destruct (symmetric_for matches2 entry1) as [m|] eqn:Hfor.
    + apply symmetric_for_spec in Hfor as (m1 & Hlen & Hhd & -> & _).
      exists (entry1 :: kept). repeat split.
      * apply sublist_skip. exact Hsub.
      * constructor; [|exact Hsurv].
        unfold survives. apply Is_true_true, Nat.leb_le. exact Hlen.
      * constructor; [|exact Hall]. exists m1. auto.
    + exists kept. repeat split; [|exact Hsurv|exact Hall].
      apply sublist_cons. exact Hsub.
Qed.

Lemma omap_symmetric_length (matches1 matches2 : list (list cv.DMatch)) :
  Z.of_nat (length (omap (symmetric_for matches2) matches1)) <= count survives matches1.
Proof.
  induction matches1 as [|entry1 rest1 IH]; [reflexivity|].
  rewrite count_cons.
  change (omap (symmetric_for matches2) (entry1 :: rest1))
    with (match symmetric_for matches2 entry1 with
          | Some m => m :: omap (symmetric_for matches2) rest1
          | None => omap (symmetric_for matches2) rest1
          end).
  destruct (symmetric_for matches2 entry1) as [m|] eqn:Hfor.
  - apply symmetric_for_spec in Hfor as (m1 & Hlen & _).
    assert (Hs : survives entry1 = true) by (apply Nat.leb_le; exact Hlen).
    rewrite Hs, length_cons. lia.
  - destruct (survives entry1); lia.
Qed.

(** *** Steps of a method *)

Lemma bind_run {S A B} (m : M exn S A) (k : A -> M exn S B) (s s' : S)
    (a : A) (tr : list call) :
  m s = (Returned a, s', tr) ->
  bind m k s = ((k a s').1.1, (k a s').1.2, tr ++ (k a s').2).
Proof.
  intros Hm. unfold bind. rewrite Hm.
  destruct (k a s') as [[r s''] tr']. reflexivity.
Qed.

Lemma bind_silent {S A B} (m : M exn S A) (k : A -> M exn S B) (s s' : S) (a : A) :
  m s = (Returned a, s', []) -> bind m k s = k a s'.
Proof.
  intros Hm. rewrite (bind_run m k s s' a []) by exact Hm.
  destruct (k a s') as [[r s''] tr']. reflexivity.
Qed.

Lemma bind_gets {S A B} (g : S -> A) (k : A -> M exn S B) (s : S) :
  bind (gets g) k s = k (g s) s.
Proof. apply bind_silent. reflexivity. Qed.

Lemma bind_modify {S B} (h : S -> S) (k : unit -> M exn S B) (s : S) :
  bind (modify h) k s = k tt (h s).
Proof. apply bind_silent. reflexivity. Qed.

Lemma bind_undefined {S A B} (m : M exn S A) (k : A -> M exn S B) (s s' : S)
    (tr : list call) :
  m s = (Undefined, s', tr) -> bind m k s = (Undefined, s', tr).
Proof. intros Hm. unfold bind. rewrite Hm. reflexivity. Qed.

Lemma bind_thrown {S A B} (m : M exn S A) (k : A -> M exn S B) (s s' : S)
    (e : exn) (tr : list call) :
  m s = (Thrown e, s', tr) -> bind m k s = (Thrown e, s', tr).
Proof. intros Hm. unfold bind. rewrite Hm. reflexivity. Qed.

Lemma frame_eta (f : Frame) :
  mkFrame (with_points (points1 (this f)) (points2 (this f)) (this f)) (outMatches f) = f.
Proof. destruct f as [[] ?]. reflexivity. Qed.

(** *** ransacTest *)

(** The conversion loop pushes the point pairs of the correspondences
    behind what the two buffers hold; outside a keypoint vector it is
    undefined. *)
Lemma convert_loop_run (matches : list cv.DMatch)
    (keypoints1 keypoints2 : list cv.KeyPoint) :
  forall f : Frame,
    match points_of matches keypoints1 keypoints2 with
    | Some (p1, p2) =>
        convert_loop matches keypoints1 keypoints2 f =
        (Returned tt,
         mkFrame (with_points (points1 (this f) ++ p1) (points2 (this f) ++ p2) (this f))
           (outMatches f), [])
    | None =>
        exists f', convert_loop matches keypoints1 keypoints2 f = (Undefined, f', []) /\
                   outMatches f' = outMatches f
    end.
Proof.
  induction matches as [|it rest IH]; intros f; simpl.
  - unfold ret. rewrite !app_nil_r, frame_eta. reflexivity.
  - unfold read_at.
    destruct (vector_at keypoints1 (cv.queryIdx it)) as [kp1|].
    2: { exists f. split; reflexivity. }
    rewrite (bind_silent _ _ f f kp1) by reflexivity.
    rewrite bind_modify.
    destruct (vector_at keypoints2 (cv.trainIdx it)) as [kp2|].
    2: { eexists. split; [reflexivity|reflexivity]. }
    rewrite (bind_silent _ _ _ _ kp2) by reflexivity.
    rewrite bind_modify.
    specialize (IH (push_points2 (position kp2) (push_points1 (position kp1) f))).
    fold (position kp1). fold (position kp2).
    destruct (points_of rest keypoints1 keypoints2) as [[p1 p2]|].
    + rewrite IH. simpl. rewrite <- !app_assoc. reflexivity.
    + destruct IH as (f' & Hrun & Hout). exists f'. split; [exact Hrun|].
      rewrite Hout. reflexivity.
Qed.

Lemma select_inliers_sublist (inliers : list Z) :
  forall matches, sublist (select_inliers inliers matches) matches.
Proof.
  induction inliers as [|b inliers' IH]; intros [|m matches']; simpl;
    try apply sublist_nil_l.
  destruct (negb (b =? 0)).
  - apply sublist_skip, IH.
  - apply sublist_cons, IH.
Qed.

(** The extraction loop appends the selected correspondences; a mask
    longer than the correspondences takes [itM] beyond the end. *)
Lemma extract_loop_run (inliers : list Z) :
  forall (matches : list cv.DMatch) (f : Frame),
    extract_loop inliers matches f =
    ((if (length inliers <=? length matches)%nat then Returned tt else Undefined),
     mkFrame (this f) (outMatches f ++ select_inliers inliers matches), []).
Proof.
  induction inliers as [|b inliers' IH]; intros matches f.
  - simpl. rewrite app_nil_r. destruct f. reflexivity.
  - destruct matches as [|m matches'].
    + simpl. rewrite app_nil_r. destruct f. reflexivity.
    + simpl extract_loop. simpl select_inliers.
      destruct (negb (b =? 0)).
      * rewrite bind_modify, IH. simpl. rewrite <- app_assoc. reflexivity.
      * rewrite (bind_silent _ _ f f tt) by reflexivity.
        rewrite IH. reflexivity.
Qed.

(** Every run of [ransacTest] is one of the cases of [ransacTest_run]. *)
Lemma ransacTest_cases (matches : list cv.DMatch)
    (keypoints1 keypoints2 : list cv.KeyPoint) (f : Frame) :
  ransacTest_run matches keypoints1 keypoints2 f
    (ransacTest matches keypoints1 keypoints2 f).
Proof.
  unfold ransacTest.
  pose proof (convert_loop_run matches keypoints1 keypoints2 f) as Hconv.
  destruct (points_of matches keypoints1 keypoints2) as [[p1 p2]|] eqn:Hpts.
  2: { destruct Hconv as (f' & Hrun & Hout).
       rewrite (bind_undefined _ _ _ _ _ Hrun).
       apply run_index_outside; assumption. }
  rewrite (bind_silent _ _ _ _ _ Hconv).
  rewrite !bind_gets. simpl.
  set (q1 := points1 (this f) ++ p1). set (q2 := points2 (this f) ++ p2).
  destruct (findFundamentalMat_RANSAC q1 q2 (distance (this f)) (confidence (this f)))
    as [e|[F0 mask]] eqn:Hest.
  { erewrite bind_thrown by (unfold call_RANSAC; rewrite Hest; reflexivity).
    apply (run_RANSAC_throws _ _ _ _ p1 p2 e Hpts Hest). }
  erewrite bind_run by (unfold call_RANSAC; rewrite Hest; reflexivity).
  simpl.
  pose proof (extract_loop_run mask matches
    (mkFrame (with_points q1 q2 (this f)) (outMatches f))) as Hext.
  simpl in Hext.
  destruct (length mask <=? length matches)%nat eqn:Hlen.
  2: { apply Nat.leb_gt in Hlen.
       rewrite (bind_undefined _ _ _ _ _ Hext). simpl.
       apply (run_mask_longer _ _ _ _ p1 p2 F0 mask Hpts Hest Hlen). }
  apply Nat.leb_le in Hlen.
  rewrite (bind_silent _ _ _ _ _ Hext).
  rewrite bind_gets. simpl.
  destruct (refineF (this f)) eqn:Href.
  2: { simpl. apply (run_unrefined _ _ _ _ p1 p2 F0 mask Hpts Hest Hlen Href). }
  rewrite bind_modify, bind_gets. simpl.
  set (out := outMatches f ++ select_inliers mask matches).
  pose proof (convert_loop_run out keypoints1 keypoints2
    (mkFrame (with_points [] [] (this f)) out)) as Hconv2.
  destruct (points_of out keypoints1 keypoints2) as [[r1 r2]|] eqn:Hpts2.
  2: { destruct Hconv2 as (f' & Hrun & Hout).
       unfold clear_points. simpl.
       rewrite (bind_undefined _ _ _ _ _ Hrun). simpl.
       apply (run_refine_index_outside _ _ _ _ p1 p2 F0 mask f' Hpts Hest Hlen Href Hpts2 Hout). }
  unfold clear_points. simpl. simpl in Hconv2.
  rewrite (bind_silent _ _ _ _ _ Hconv2).
  rewrite !bind_gets. simpl.
  unfold call_8POINT.
  destruct (findFundamentalMat_8POINT r1 r2) as [e|F] eqn:Hex; simpl.
  - apply (run_8POINT_throws _ _ _ _ p1 p2 F0 mask r1 r2 e Hpts Hest Hlen Href Hpts2 Hex).
  - apply (run_refined _ _ _ _ p1 p2 F0 mask r1 r2 F Hpts Hest Hlen Href Hpts2 Hex).
Qed.

(** The estimator is called first, and on the buffers as they stand
    after the conversion loop: what they held at entry, then the point
    pairs of the correspondences. *)
Lemma ransacTest_first_call (matches : list cv.DMatch)
    (keypoints1 keypoints2 : list cv.KeyPoint) (f : Frame)
    (p1 p2 : list cv.Point2f) :
  points_of matches keypoints1 keypoints2 = Some (p1, p2) ->
  exists rest,
    calls (ransacTest matches keypoints1 keypoints2 f) =
    FM_RANSAC (points1 (this f) ++ p1) (points2 (this f) ++ p2)
      (distance (this f)) (confidence (this f)) :: rest.
Proof.
  intros Hpts.
  destruct (ransacTest_cases matches keypoints1 keypoints2 f);
    try congruence;
    match goal with
    | H : points_of matches _ _ = Some _ |- _ =>
        rewrite Hpts in H; injection H as <- <-
    end; unfold calls; simpl; eauto.
Qed.

(** Whatever the outcome short of undefined behaviour, the output vector
    is what it was, followed by a subsequence of the correspondences. *)
Lemma ransacTest_appends (matches : list cv.DMatch)
    (keypoints1 keypoints2 : list cv.KeyPoint) (f : Frame) :
  outcome (ransacTest matches keypoints1 keypoints2 f) <> Undefined ->
  exists new,
    outMatches (store (ransacTest matches keypoints1 keypoints2 f)) =
    outMatches f ++ new /\
    sublist new matches.
Proof.
  intros Hdef.
  destruct (ransacTest_cases matches keypoints1 keypoints2 f);
    unfold outcome, store in *; simpl in *; try congruence.
  - exists []. rewrite app_nil_r. split; [reflexivity|apply sublist_nil_l].
  - eexists. split; [reflexivity|apply select_inliers_sublist].
  - eexists. split; [reflexivity|apply select_inliers_sublist].
  - eexists. split; [reflexivity|apply select_inliers_sublist].
Qed.

Lemma points_of_app (a b : list cv.DMatch)
    (keypoints1 keypoints2 : list cv.KeyPoint) :
  is_Some (points_of a keypoints1 keypoints2) ->
  is_Some (points_of b keypoints1 keypoints2) ->
  is_Some (points_of (a ++ b) keypoints1 keypoints2).
Proof.
  intros Ha Hb. induction a as [|it rest IH]; [exact Hb|].
  simpl in *.
  destruct (vector_at keypoints1 (cv.queryIdx it)) as [kp1|];
    [|destruct Ha; discriminate].
  destruct (vector_at keypoints2 (cv.trainIdx it)) as [kp2|];
    [|destruct Ha; discriminate].
  destruct (points_of rest keypoints1 keypoints2) as [[p1 p2]|];
    [|destruct Ha; discriminate].
  destruct IH as [[r1 r2] ->]; eauto.
Qed.

Lemma points_of_sublist (a b : list cv.DMatch)
    (keypoints1 keypoints2 : list cv.KeyPoint) :
  sublist a b ->
  is_Some (points_of b keypoints1 keypoints2) ->
  is_Some (points_of a keypoints1 keypoints2).
Proof.
  induction 1 as [|it a b Hsub IH|it a b Hsub IH]; intros Hb; simpl in *.
  - eauto.
  - destruct (vector_at keypoints1 (cv.queryIdx it)) as [kp1|];
      [|destruct Hb; discriminate].
    destruct (vector_at keypoints2 (cv.trainIdx it)) as [kp2|];
      [|destruct Hb; discriminate].
    destruct (points_of b keypoints1 keypoints2) as [[p1 p2]|];
      [|destruct Hb; discriminate].
    destruct IH as [[r1 r2] ->]; eauto.
  - apply IH.
    destruct (vector_at keypoints1 (cv.queryIdx it)) as [kp1|];
      [|destruct Hb; discriminate].
    destruct (vector_at keypoints2 (cv.trainIdx it)) as [kp2|];
      [|destruct Hb; discriminate].
    destruct (points_of b keypoints1 keypoints2) as [[p1 p2]|];
      [eauto|destruct Hb; discriminate].
Qed.

(** When the behaviour of [ransacTest] is defined: the indices of the
    correspondences and of what the output vector holds are inside the
    keypoint vectors, and the mask of the robust estimator is no longer
    than the correspondences. *)
Lemma ransacTest_defined (matches : list cv.DMatch)
    (keypoints1 keypoints2 : list cv.KeyPoint) (f : Frame)
    (p1 p2 : list cv.Point2f) :
  points_of matches keypoints1 keypoints2 = Some (p1, p2) ->
  is_Some (points_of (outMatches f) keypoints1 keypoints2) ->
  (forall F0 mask,
     findFundamentalMat_RANSAC (points1 (this f) ++ p1) (points2 (this f) ++ p2)
       (distance (this f)) (confidence (this f)) = inr (F0, mask) ->
     (length mask <= length matches)%nat) ->
  outcome (ransacTest matches keypoints1 keypoints2 f) <> Undefined.
Proof.
  intros Hpts Hout Hmask.
  destruct (ransacTest_cases matches keypoints1 keypoints2 f);
    unfold outcome; simpl; try discriminate; try congruence;
    match goal with
    | H : points_of matches _ _ = Some _ |- _ =>
        rewrite Hpts in H; injection H as <- <-
    end.
  - match goal with
    | H : findFundamentalMat_RANSAC _ _ _ _ = inr (?F0, ?mask) |- _ =>
        pose proof (Hmask F0 mask H)
    end. lia.
  - assert (Hall : is_Some (points_of out keypoints1 keypoints2)).
    { apply points_of_app; [exact Hout|].
      apply (points_of_sublist _ matches); [apply select_inliers_sublist|eauto]. }
    destruct Hall as [? Hall]. congruence.
Qed.

(** *** match *)

Lemma on_this_silent {A} (m : M exn RobustMatcher A) (f : Frame) (a : A) :
  m (this f) = (Returned a, this f, []) ->
  on_this m f = (Returned a, f, []).
Proof. intros Hm. unfold on_this. rewrite Hm. destruct f. reflexivity. Qed.

Lemma bind_external_inl {S A B} (e : exn) (k : A -> M exn S B) (s : S) :
  bind (external (inl e)) k s = (Thrown e, s, []).
Proof. reflexivity. Qed.

Lemma bind_external_inr {S A B} (a : A) (k : A -> M exn S B) (s : S) :
  bind (external (inr a)) k s = k a s.
Proof. apply bind_silent. reflexivity. Qed.

(** An exception of the detector, of the extractor or of the matcher
    leaves [match] before any estimator is called; once they have all
    answered, [match] is [ransacTest] on the symmetric correspondences of
    the two neighbour tables, the object being left as it was until
    then. *)
Lemma match_unfold (image1 image2 : Image) (f : Frame) :
  match_ image1 image2 f =
  match match_prepared (this f) image1 image2 with
  | inl e => (Thrown e, f, [])
  | inr (keypoints1, keypoints2, matches1, matches2) =>
      let run := ransacTest (match_symmetric (this f) matches1 matches2)
                   keypoints1 keypoints2 f in
      (result_map (fun F => (F, keypoints1, keypoints2)) (outcome run),
       store run, calls run)
  end.
Proof.
  unfold match_, match_prepared, match_symmetric.
  rewrite bind_gets.
  destruct (detector (this f) image1) as [e|detected1];
    [apply bind_external_inl|rewrite bind_external_inr].
  destruct (detector (this f) image2) as [e|detected2];
    [apply bind_external_inl|rewrite bind_external_inr].
  rewrite bind_gets.
  destruct (extractor (this f) image1 detected1) as [e|[k1 d1]];
    [apply bind_external_inl|rewrite bind_external_inr].
  destruct (extractor (this f) image2 detected2) as [e|[k2 d2]];
    [apply bind_external_inl|rewrite bind_external_inr].
  destruct (knnMatch d1 d2 2) as [e|matches1];
    [apply bind_external_inl|rewrite bind_external_inr].
  destruct (knnMatch d2 d1 2) as [e|matches2];
    [apply bind_external_inl|rewrite bind_external_inr].
  rewrite (bind_silent _ _ f f _ (on_this_silent _ f _ (ratioTest_run _ _))).
  rewrite (bind_silent _ _ f f _ (on_this_silent _ f _ (ratioTest_run _ _))).
  rewrite (bind_silent _ _ f f _ (on_this_silent _ f _ (symmetryTest_run _ _ _ _))).
  simpl. rewrite symmetryTest_loop_omap. simpl.
  unfold bind, outcome, store, calls.
  destruct (ransacTest _ k1 k2 f) as [[[F|e|] f'] tr]; simpl;
    rewrite ?app_nil_r; reflexivity.
Qed.

Lemma match_run_prepared (image1 image2 : Image) (f : Frame)
    (keypoints1 keypoints2 : list cv.KeyPoint)
    (matches1 matches2 : list (list cv.DMatch)) :
  match_prepared (this f) image1 image2 =
    inr (keypoints1, keypoints2, matches1, matches2) ->
  let run := ransacTest (match_symmetric (this f) matches1 matches2)
               keypoints1 keypoints2 f in
  match_ image1 image2 f =
  (result_map (fun F => (F, keypoints1, keypoints2)) (outcome run),
   store run, calls run).
Proof. intros Hprep. rewrite match_unfold, Hprep. reflexivity. Qed.

(** An exception of the detector, of the extractor or of the matcher
    leaves [match] with the object and the output vector untouched and no
    estimator called. *)
Lemma match_collaborator_exception (image1 image2 : Image) (f : Frame) (e : exn) :
  match_prepared (this f) image1 image2 = inl e ->
  match_ image1 image2 f = (Thrown e, f, []).
Proof. intros Hprep. rewrite match_unfold, Hprep. reflexivity. Qed.


(** *** The filters *)

(** C3 (amended). [ratioTest] leaves an entry as it is exactly when the
    entry has two neighbours at least and the [float] quotient
    distance(rank0)/distance(rank1) is not greater than the threshold;
    every other entry, among them every entry with fewer than two
    neighbours, is cleared. When neither the quotient nor the threshold
    is a NaN, "not greater" is "less than or equal"; an entry exactly at
    the threshold is kept. The returned [int] is the number of cleared
    entries, as a 32-bit value; it is that number itself for a container
    of at most [INT_MAX] entries. *)
Theorem ratioTest_keeps_unless_above (o : RobustMatcher)
    (matches : list (list cv.DMatch)) :
  outcome (ratioTest matches o) =
    Returned (wrap_int (count (cleared (ratio o)) matches),
              map (ratio_filtered (ratio o)) matches) /\
  (forall entry,
     ratio_filtered (ratio o) entry =
     if ratio_keeps (ratio o) entry then entry else []) /\
  (forall entry, (length entry < 2)%nat -> ratio_keeps (ratio o) entry = false) /\
  (forall m0 m1 rest,
     ratio_keeps (ratio o) (m0 :: m1 :: rest) =
     negb (IEEE.fgt (ratio_quotient m0 m1) (ratio o))) /\
  (forall m0 m1 rest,
     IEEE.is_nan (ratio_quotient m0 m1) = false ->
     IEEE.is_nan (ratio o) = false ->
     ratio_keeps (ratio o) (m0 :: m1 :: rest) =
     IEEE.fle (ratio_quotient m0 m1) (ratio o)) /\
  (forall m0 m1 rest,
     ratio_quotient m0 m1 = ratio o ->
     ratio_keeps (ratio o) (m0 :: m1 :: rest) = true) /\
  (Z.of_nat (length matches) <= INT_MAX ->
   wrap_int (count (cleared (ratio o)) matches) = count (cleared (ratio o)) matches).
Proof.
  split; [rewrite ratioTest_run; reflexivity|].
  split; [reflexivity|].
  split.
  { intros [|m0 [|m1 rest]] Hlen; simpl in *; try reflexivity; lia. }
  split; [reflexivity|].
  split.
  { intros m0 m1 rest Hq Hr. simpl. apply fgt_false_fle; assumption. }
  split.
  { intros m0 m1 rest Hq. simpl. rewrite Hq, fgt_irrefl. reflexivity. }
  intros Hlen. apply wrap_int_small.
  pose proof (count_nonneg (cleared (ratio o)) matches). unfold INT_MAX in *. lia.
Qed.

(** C7. [ratioTest] never changes the length of the container: every
    entry stays at its index, either untouched or cleared to the empty
    list; the object is left as it was and no estimator is called. *)
Theorem ratioTest_clears_in_place (o : RobustMatcher)
    (matches : list (list cv.DMatch)) :
  exists removed matches',
    ratioTest matches o = (Returned (removed, matches'), o, []) /\
    length matches' = length matches /\
    (forall i : nat, matches' !! i = ratio_filtered (ratio o) <$> matches !! i) /\
    (forall entry,
       ratio_keeps (ratio o) entry = true /\ ratio_filtered (ratio o) entry = entry \/
       ratio_keeps (ratio o) entry = false /\ ratio_filtered (ratio o) entry = []).
Proof.
  eexists _, _. split; [apply ratioTest_run|].
  split; [apply length_map|].
  split; [intros i; apply list_lookup_fmap|].
  intros entry. unfold ratio_filtered.
  destruct (ratio_keeps (ratio o) entry); auto.
Qed.

(** C10. [ratioTest] counts an entry that is already empty: the returned
    [int] is the number of entries with fewer than two neighbours plus
    the number of entries failing the ratio check (as a 32-bit value, and
    that number itself for at most [INT_MAX] entries). A second pass over
    the filtered container leaves it unchanged and returns the number of
    its empty entries, the same number again. *)
Theorem ratioTest_counts_empty_entries (o : RobustMatcher)
    (matches : list (list cv.DMatch)) :
  let discarded := count few_neighbours matches + count (fails_ratio (ratio o)) matches in
  few_neighbours [] = true /\
  exists matches',
    outcome (ratioTest matches o) = Returned (wrap_int discarded, matches') /\
    outcome (ratioTest matches' o) = Returned (wrap_int discarded, matches') /\
    count is_empty matches' = discarded /\
    (Z.of_nat (length matches) <= INT_MAX -> wrap_int discarded = discarded).
Proof.
  intros discarded. split; [reflexivity|].
  exists (map (ratio_filtered (ratio o)) matches).
  assert (Hd : count (cleared (ratio o)) matches = discarded)
    by apply count_cleared_split.
  rewrite !ratioTest_run. unfold outcome; simpl.
  rewrite count_map_filtered, Hd, count_empty_filtered, Hd.
  rewrite map_filtered_idem.
  repeat split.
  intros Hlen. apply wrap_int_small.
  pose proof (count_nonneg (cleared (ratio o)) matches). unfold INT_MAX in *. lia.
Qed.

(** C4. A pair (i, j) appears in the output of [symmetryTest] exactly
    when an entry of the 1->2 table with two neighbours at least has its
    best neighbour going from i to j and an entry of the 2->1 table with
    two neighbours at least has its best neighbour going from j to i. The
    output follows the scan order of the 1->2 table, each entry of which
    contributes at most one correspondence. *)
Theorem symmetryTest_mutual_best (o : RobustMatcher)
    (matches1 matches2 : list (list cv.DMatch)) :
  exists out,
    symmetryTest matches1 matches2 [] o = (Returned out, o, []) /\
    (forall i j, appears i j out <-> mutual_best matches1 matches2 i j) /\
    (exists kept,
       sublist kept matches1 /\ Forall survives kept /\ Forall2 pushed_for kept out) /\
    (length out <= length matches1)%nat.
Proof.
  exists (omap (symmetric_for matches2) matches1).
  split; [apply symmetryTest_run|].
  split; [intros i j; apply appears_omap_mutual|].
  split; [apply omap_symmetric_order|].
  pose proof (omap_symmetric_length matches1 matches2).
  pose proof (count_nonneg survives matches1). lia.
Qed.

(** C8. Exchanging the two tables exchanges the components of the pairs:
    (i, j) appears in the output of [symmetryTest(matches1, matches2)]
    exactly when (j, i) appears in that of
    [symmetryTest(matches2, matches1)]. *)
Theorem symmetryTest_swap (o : RobustMatcher)
    (matches1 matches2 : list (list cv.DMatch)) :
  exists out12 out21,
    outcome (symmetryTest matches1 matches2 [] o) = Returned out12 /\
    outcome (symmetryTest matches2 matches1 [] o) = Returned out21 /\
    forall i j, appears i j out12 <-> appears j i out21.
Proof.
  exists (omap (symmetric_for matches2) matches1),
         (omap (symmetric_for matches1) matches2).
  rewrite !symmetryTest_run. repeat split; try reflexivity.
  - intros Hij. apply appears_omap_mutual, mutual_best_swap, appears_omap_mutual, Hij.
  - intros Hji. apply appears_omap_mutual, mutual_best_swap, appears_omap_mutual, Hji.
Qed.

(** *** The geometric stage *)

Lemma ransacTest_unrefined_run (matches : list cv.DMatch)
    (keypoints1 keypoints2 : list cv.KeyPoint) (f : Frame)
    (p1 p2 : list cv.Point2f) (F0 : Mat) (mask : list Z) :
  points_of matches keypoints1 keypoints2 = Some (p1, p2) ->
  findFundamentalMat_RANSAC (points1 (this f) ++ p1) (points2 (this f) ++ p2)
    (distance (this f)) (confidence (this f)) = inr (F0, mask) ->
  (length mask <= length matches)%nat ->
  refineF (this f) = false ->
  ransacTest matches keypoints1 keypoints2 f =
  (Returned F0,
   mkFrame (with_points (points1 (this f) ++ p1) (points2 (this f) ++ p2) (this f))
     (outMatches f ++ select_inliers mask matches),
   [FM_RANSAC (points1 (this f) ++ p1) (points2 (this f) ++ p2)
      (distance (this f)) (confidence (this f))]).
Proof.
  intros Hpts Hest Hlen Href.
  destruct (ransacTest_cases matches keypoints1 keypoints2 f);
    try congruence;
    match goal with
    | H : points_of matches _ _ = Some _ |- _ =>
        rewrite Hpts in H; injection H as <- <-
    end;
    match goal with
    | H : findFundamentalMat_RANSAC _ _ _ _ = _ |- _ =>
        subst q1 q2; rewrite Hest in H; try discriminate H;
        injection H as <- <-
    end.
  - lia.
  - reflexivity.
Qed.

(** C1 (amended). Neither [ransacTest] nor [match] counts the
    correspondences: whatever their number, fewer than eight included,
    as soon as their keypoint indices are inside the keypoint vectors
    [ransacTest] calls the robust estimator, first, on the point buffers
    with the configured distance and confidence. An exception leaves
    [ransacTest] only when a call of an estimator throws it. Once the
    detector, the extractor and the matcher have answered, [match] is that
    very run on the symmetric correspondences. *)
Theorem ransacTest_has_no_minimum_count (matches : list cv.DMatch)
    (keypoints1 keypoints2 : list cv.KeyPoint) (f : Frame)
    (p1 p2 : list cv.Point2f) (image1 image2 : Image) :
  points_of matches keypoints1 keypoints2 = Some (p1, p2) ->
  let q1 := points1 (this f) ++ p1 in
  let q2 := points2 (this f) ++ p2 in
  let d := distance (this f) in
  let c := confidence (this f) in
  let run := ransacTest matches keypoints1 keypoints2 f in
  (exists rest, calls run = FM_RANSAC q1 q2 d c :: rest) /\
  (forall e,
     outcome run = Thrown e <->
     findFundamentalMat_RANSAC q1 q2 d c = inl e \/
     exists r1 r2, FM_8POINT r1 r2 ∈ calls run /\
                   findFundamentalMat_8POINT r1 r2 = inl e) /\
  (forall kps1 kps2 matches1 matches2,
     match_prepared (this f) image1 image2 = inr (kps1, kps2, matches1, matches2) ->
     let run' := ransacTest (match_symmetric (this f) matches1 matches2) kps1 kps2 f in
     match_ image1 image2 f =
     (result_map (fun F => (F, kps1, kps2)) (outcome run'), store run', calls run')).
Proof.
  intros Hpts q1 q2 d c run.
  split; [apply ransacTest_first_call; exact Hpts|].
  split; [|intros kps1 kps2 matches1 matches2 Hprep; apply match_run_prepared, Hprep].
  intros e. subst run.
  destruct (ransacTest_cases matches keypoints1 keypoints2 f);
    try congruence;
    match goal with
    | H : points_of matches _ _ = Some _ |- _ =>
        rewrite Hpts in H; injection H as <- <-
    end;
    repeat match goal with
           | x := _ |- _ => subst x
           end;
    unfold outcome, calls; simpl.
  - (* the robust estimator throws *)
    split.
    + intros [= <-]. left. assumption.
    + intros [Hr|(r1 & r2 & Hin & _)]; [congruence|].
      apply list_elem_of_singleton in Hin. discriminate Hin.
  - split; [discriminate|].
    intros [Hr|(r1 & r2 & Hin & _)]; [congruence|].
    apply list_elem_of_singleton in Hin. discriminate Hin.
  - split; [discriminate|].
    intros [Hr|(r1 & r2 & Hin & _)]; [congruence|].
    apply list_elem_of_singleton in Hin. discriminate Hin.
  - split; [discriminate|].
    intros [Hr|(r1 & r2 & Hin & _)]; [congruence|].
    apply list_elem_of_singleton in Hin. discriminate Hin.
  - (* the exact estimator throws *)
    split.
    + intros [= <-]. right. exists r1, r2. split; [|assumption].
      apply elem_of_cons. right. apply elem_of_cons. left. reflexivity.
    + intros [Hr|(s1 & s2 & Hin & Hs)]; [congruence|].
      apply elem_of_cons in Hin as [Hin|Hin]; [discriminate Hin|].
      apply list_elem_of_singleton in Hin. injection Hin as -> ->. congruence.
  - split; [discriminate|].
    intros [Hr|(s1 & s2 & Hin & Hs)]; [congruence|].
    apply elem_of_cons in Hin as [Hin|Hin]; [discriminate Hin|].
    apply list_elem_of_singleton in Hin. injection Hin as -> ->. congruence.
Qed.

(** C9. [symmetryTest] and [ransacTest] push on the vector they are
    given without clearing it: what the vector held before the call is
    still there, unchanged, and the new correspondences follow. *)
Theorem outputs_are_appended (o : RobustMatcher)
    (matches1 matches2 : list (list cv.DMatch)) (symMatches : list cv.DMatch)
    (matches : list cv.DMatch) (keypoints1 keypoints2 : list cv.KeyPoint)
    (f : Frame) :
  (exists new,
     outcome (symmetryTest matches1 matches2 [] o) = Returned new /\
     outcome (symmetryTest matches1 matches2 symMatches o) =
     Returned (symMatches ++ new)) /\
  (outcome (ransacTest matches keypoints1 keypoints2 f) <> Undefined ->
   exists new,
     outMatches (store (ransacTest matches keypoints1 keypoints2 f)) =
     outMatches f ++ new /\
     sublist new matches).
Proof.
  split.
  - exists (omap (symmetric_for matches2) matches1).
    rewrite !symmetryTest_run. split; reflexivity.
  - apply ransacTest_appends.
Qed.

(** C6 (amended). With the refinement flag set, a call of [ransacTest]
    that returns re-estimates the matrix with the exact 8-point method
    from the point pairs of every correspondence of the output vector as
    it stands after the extraction (what it held at the call, followed by
    the inliers), and returns that estimate in the place of the matrix of
    the robust stage. The output vector is the one the same call leaves
    without refinement: only the matrix and the point buffers differ. *)
Theorem refinement_reads_the_output_vector (matches : list cv.DMatch)
    (keypoints1 keypoints2 : list cv.KeyPoint) (f : Frame)
    (F : Mat) (f' : Frame) (tr : list call) :
  refineF (this f) = true ->
  ransacTest matches keypoints1 keypoints2 f = (Returned F, f', tr) ->
  exists F0 f0' c r1 r2 inliers,
    ransacTest matches keypoints1 keypoints2 (with_refineF false f) =
      (Returned F0, f0', [c]) /\
    outMatches f' = outMatches f0' /\
    outMatches f' = outMatches f ++ inliers /\
    sublist inliers matches /\
    points_of (outMatches f') keypoints1 keypoints2 = Some (r1, r2) /\
    findFundamentalMat_8POINT r1 r2 = inr F /\
    tr = [c; FM_8POINT r1 r2] /\
    points1 (this f') = r1 /\ points2 (this f') = r2.
Proof.
  intros Href Hrun.
  pose proof (ransacTest_cases matches keypoints1 keypoints2 f) as Hcases.
  rewrite Hrun in Hcases.
  inversion Hcases; subst; try congruence.
  match goal with
  | Hp : points_of matches _ _ = Some (?p1, ?p2),
    He : findFundamentalMat_RANSAC _ _ _ _ = inr (?F0, ?mask),
    Hl : (length ?mask <= _)%nat |- _ =>
      pose proof (ransacTest_unrefined_run matches keypoints1 keypoints2
                    (with_refineF false f) p1 p2 F0 mask Hp He Hl eq_refl) as Hun;
      exists F0; eexists; eexists; exists r1, r2, (select_inliers mask matches)
  end.
  split; [exact Hun|]. simpl.
  repeat split; try assumption; try reflexivity.
  apply select_inliers_sublist.
Qed.

End Properties.

(** ** Further properties of the methods *)

Section Further.

Context {opencv : OpenCV}.

(** *** Order of IEEE numbers *)

Lemma fle_fgt_trans (a b c : spec_float) :
  IEEE.fle a b = true -> IEEE.fgt c b = true -> IEEE.fgt c a = true.
Proof.
  unfold IEEE.fle, IEEE.fgt, SFleb, SFltb.
  destruct a as [sa|sa| |sa ma ea], b as [sb|sb| |sb mb eb],
           c as [sc|sc| |sc mc ec]; simpl; try discriminate; try reflexivity;
    try (destruct sa; simpl; try discriminate; try reflexivity);
    try (destruct sb; simpl; try discriminate; try reflexivity);
    try (destruct sc; simpl; try discriminate; try reflexivity);
    try (intros; assumption).
  all: rewrite ?Pos.compare_cont_spec; simpl Pos.switch_Eq.
  all: destruct (Z.compare_spec ea eb), (Z.compare_spec eb ec), (Z.compare_spec ea ec);
         simpl; try discriminate; try reflexivity; try lia.
  all: destruct (Pos.compare_spec ma mb), (Pos.compare_spec mb mc),
                (Pos.compare_spec ma mc);
         simpl; try discriminate; try reflexivity; try lia.
Qed.

(** *** ratioTest, further *)

Lemma count_survives_filtered (r : IEEE.float) (matches : list (list cv.DMatch)) :
  count survives (map (ratio_filtered r) matches) + count (cleared r) matches =
  Z.of_nat (length matches).
Proof.
  induction matches as [|entry rest IH]; [reflexivity|].
  simpl map. rewrite !count_cons, length_cons.
  unfold ratio_filtered at 1, cleared at 1, ratio_keeps.
  destruct entry as [|m0 [|m1 tl]]; simpl; try lia.
  destruct (IEEE.fgt (ratio_quotient m0 m1) r); simpl; lia.
Qed.

(** X1. For a container of at most [INT_MAX] entries the value [ratioTest]
    returns lies between 0 and the size of the container, and the size
    minus that value is the number of entries that still have two
    neighbours at least (the figure the commented-out trace of [match]
    prints). *)
Theorem ratioTest_size_minus_removed (o : RobustMatcher)
    (matches : list (list cv.DMatch)) :
  Z.of_nat (length matches) <= INT_MAX ->
  exists removed matches',
    outcome (ratioTest matches o) = Returned (removed, matches') /\
    0 <= removed <= Z.of_nat (length matches) /\
    Z.of_nat (length matches') - removed = count survives matches'.
Proof.
  intros Hlen. rewrite ratioTest_run. eexists _, _. split; [reflexivity|].
  pose proof (count_nonneg (cleared (ratio o)) matches) as Hc.
  pose proof (count_survives_filtered (ratio o) matches) as Hs.
  rewrite wrap_int_small by (unfold INT_MAX in *; lia).
  rewrite length_map. lia.
Qed.

(** X2. After [ratioTest] every entry is either empty or has two
    neighbours at least: the test [size() < 2] of [symmetryTest] skips
    exactly the entries the ratio test cleared. *)
Theorem ratioTest_leaves_empty_or_pairs (o : RobustMatcher)
    (matches : list (list cv.DMatch)) :
  exists removed matches',
    outcome (ratioTest matches o) = Returned (removed, matches') /\
    Forall (fun entry => entry = [] \/ (2 <= length entry)%nat) matches' /\
    forall entry, entry ∈ matches' -> survives entry = negb (is_empty entry).
Proof.
  rewrite ratioTest_run. eexists _, _. split; [reflexivity|].
  assert (Hall : Forall (fun entry => entry = [] \/ (2 <= length entry)%nat)
                   (map (ratio_filtered (ratio o)) matches)).
  { apply Forall_forall. intros entry Hin.
    apply list_elem_of_fmap in Hin as (e & -> & _).
    unfold ratio_filtered, ratio_keeps.
    destruct e as [|m0 [|m1 tl]]; auto.
    destruct (negb _); [right; simpl; lia|left; reflexivity]. }
  split; [exact Hall|].
  intros entry Hin. rewrite Forall_forall in Hall.
  destruct (Hall entry Hin) as [->|Hlen]; [reflexivity|].
  unfold survives. destruct entry as [|m0 [|m1 tl]]; simpl in *; try lia; reflexivity.
Qed.

(** X3. Raising the threshold never clears more: when the new threshold
    set with [setRatio] is greater than or equal to the old one, every
    entry the ratio test keeps under the old threshold is kept, unchanged
    and at the same index, under the new one. *)
Theorem ratioTest_monotone_in_ratio (o : RobustMatcher) (r' : IEEE.float)
    (matches : list (list cv.DMatch)) :
  IEEE.fle (ratio o) r' = true ->
  exists removed kept removed' kept',
    outcome (ratioTest matches o) = Returned (removed, kept) /\
    outcome (ratioTest matches (setRatio r' o)) = Returned (removed', kept') /\
    (forall (i : nat) entry,
       kept !! i = Some entry -> entry <> [] -> kept' !! i = Some entry) /\
    count (cleared r') matches <= count (cleared (ratio o)) matches.
Proof.
  intros Hle. rewrite !ratioTest_run. eexists _, _, _, _.
  split; [reflexivity|]. split; [reflexivity|]. simpl ratio.
  assert (Hkeep : forall entry,
            ratio_keeps (ratio o) entry = true -> ratio_keeps r' entry = true).
  { intros [|m0 [|m1 tl]]; simpl; try discriminate.
    intros Hk. apply negb_true_iff in Hk. apply negb_true_iff.
    destruct (IEEE.fgt (ratio_quotient m0 m1) r') eqn:Hgt; [|reflexivity].
    rewrite (fle_fgt_trans _ _ _ Hle Hgt) in Hk. discriminate. }
  split.
  - intros i entry. rewrite !list_lookup_fmap.
    destruct (matches !! i) as [e|]; simpl; [|discriminate].
    unfold ratio_filtered. intros [= <-] Hne.
    destruct (ratio_keeps (ratio o) e) eqn:Hk; [|congruence].
    rewrite (Hkeep e Hk). reflexivity.
  - induction matches as [|e rest IH]; [reflexivity|].
    rewrite !count_cons. unfold cleared at 1 3.
    destruct (ratio_keeps (ratio o) e) eqn:Hk.
    + rewrite (Hkeep e Hk). simpl. lia.
    + destruct (ratio_keeps r' e); simpl; lia.
Qed.

(** *** symmetryTest, further *)

Lemma best_is_filtered (r : IEEE.float) (matches : list (list cv.DMatch)) (i j : Z) :
  (exists e, e ∈ map (ratio_filtered r) matches /\ best_is e i j) <->
  (exists e, e ∈ matches /\ ratio_keeps r e = true /\ best_is e i j).
Proof.
  split.
  - intros (e & Hin & Hbest).
    apply list_elem_of_fmap in Hin as (e0 & -> & Hin0).
    exists e0. unfold ratio_filtered in Hbest |- *.
    destruct (ratio_keeps r e0); [auto|].
    destruct Hbest as [Hlen _]. simpl in Hlen. lia.
  - intros (e & Hin & Hk & Hbest). exists e. split; [|exact Hbest].
    apply list_elem_of_fmap. exists e. split; [|exact Hin].
    unfold ratio_filtered. rewrite Hk. reflexivity.
Qed.

(** X4. The ratio test followed by the symmetry test: (i, j) is a
    symmetric correspondence exactly when an entry of the raw 1->2 table
    passes the ratio test with best neighbour i -> j and an entry of the raw
    2->1 table passes it with best neighbour j -> i. *)
Theorem symmetric_after_ratio (o : RobustMatcher)
    (matches1 matches2 : list (list cv.DMatch)) :
  exists removed1 filtered1 removed2 filtered2 out,
    outcome (ratioTest matches1 o) = Returned (removed1, filtered1) /\
    outcome (ratioTest matches2 o) = Returned (removed2, filtered2) /\
    outcome (symmetryTest filtered1 filtered2 [] o) = Returned out /\
    forall i j,
      appears i j out <->
      (exists e1, e1 ∈ matches1 /\ ratio_keeps (ratio o) e1 = true /\ best_is e1 i j) /\
      (exists e2, e2 ∈ matches2 /\ ratio_keeps (ratio o) e2 = true /\ best_is e2 j i).
Proof.
  rewrite !ratioTest_run. eexists _, _, _, _, _.
  split; [reflexivity|]. split; [reflexivity|].
  rewrite symmetryTest_run. split; [reflexivity|].
  intros i j. simpl. rewrite appears_omap_mutual. unfold mutual_best.
  rewrite !best_is_filtered. reflexivity.
Qed.

Lemma omap_cons_eq {A B} (g : A -> option B) (a : A) (l : list A) :
  omap g (a :: l) = match g a with Some b => b :: omap g l | None => omap g l end.
Proof. reflexivity. Qed.

Lemma symmetric_queries_sublist (matches1 matches2 : list (list cv.DMatch)) :
  sublist (map cv.queryIdx (omap (symmetric_for matches2) matches1))
          (best_queries matches1).
Proof.
  unfold best_queries.
  induction matches1 as [|entry rest IH]; [constructor|].
  rewrite !omap_cons_eq.
  destruct (symmetric_for matches2 entry) as [m|] eqn:Hfor.
  - apply symmetric_for_spec in Hfor as (m1 & Hlen & Hhd & -> & _).
    assert (Hs : survives entry = true) by (apply Nat.leb_le; exact Hlen).
    rewrite Hs, Hhd. simpl. apply sublist_skip, IH.
  - destruct (survives entry); [|exact IH].
    destruct (head entry); simpl; [apply sublist_cons|]; exact IH.
Qed.

Lemma best_query_listed (matches : list (list cv.DMatch)) (e : list cv.DMatch) (i j : Z) :
  e ∈ matches -> best_is e i j -> i ∈ best_queries matches.
Proof.
  intros Hin (Hlen & m & Hhd & Hq & _).
  apply list_elem_of_omap. exists e. split; [exact Hin|].
  assert (Hs : survives e = true) by (apply Nat.leb_le; exact Hlen).
  rewrite Hs, Hhd. simpl. congruence.
Qed.

(** One surviving entry per query index: the best neighbour of a query is
    then unique. *)
Lemma best_is_unique (matches : list (list cv.DMatch)) :
  NoDup (best_queries matches) ->
  forall e e' i j j',
    e ∈ matches -> e' ∈ matches -> best_is e i j -> best_is e' i j' -> j = j'.
Proof.
  induction matches as [|entry rest IH]; intros Hnd e e' i j j' Hin Hin' Hb Hb'.
  - inversion Hin.
  - assert (Hrest : NoDup (best_queries rest)).
    { unfold best_queries in Hnd |- *. rewrite omap_cons_eq in Hnd.
      destruct (if survives entry then cv.queryIdx <$> head entry else None);
        [apply NoDup_cons in Hnd as [_ Hnd]|]; exact Hnd. }
    assert (Hhead : forall e0 k, e0 ∈ rest -> best_is entry i k -> best_is e0 i j' ->
                                 False).
    { intros e0 k Hin0 (Hlen & m & Hhd & Hq & _) Hb0.
      pose proof (best_query_listed rest e0 i j' Hin0 Hb0) as Hlisted.
      unfold best_queries in Hnd. rewrite omap_cons_eq in Hnd.
      assert (Hs : survives entry = true) by (apply Nat.leb_le; exact Hlen).
      rewrite Hs, Hhd in Hnd. simpl in Hnd.
      apply NoDup_cons in Hnd as [Hnotin _]. apply Hnotin. rewrite Hq. exact Hlisted. }
    assert (Hhead' : forall e0 k, e0 ∈ rest -> best_is entry i k -> best_is e0 i j ->
                                  False).
    { intros e0 k Hin0 (Hlen & m & Hhd & Hq & _) Hb0.
      pose proof (best_query_listed rest e0 i j Hin0 Hb0) as Hlisted.
      unfold best_queries in Hnd. rewrite omap_cons_eq in Hnd.
      assert (Hs : survives entry = true) by (apply Nat.leb_le; exact Hlen).
      rewrite Hs, Hhd in Hnd. simpl in Hnd.
      apply NoDup_cons in Hnd as [Hnotin _]. apply Hnotin. rewrite Hq. exact Hlisted. }
    apply elem_of_cons in Hin as [->|Hin]; apply elem_of_cons in Hin' as [->|Hin'].
    + destruct Hb as (_ & m & Hhd & _ & Ht), Hb' as (_ & m' & Hhd' & _ & Ht').
      congruence.
    + exfalso. exact (Hhead e' j Hin' Hb Hb').
    + exfalso. exact (Hhead' e j' Hin Hb' Hb).
    + exact (IH Hrest e e' i j j' Hin Hin' Hb Hb').
Qed.

Lemma NoDup_map_through {A} (q t : A -> Z) (l : list A) :
  NoDup (map q l) ->
  (forall a b, a ∈ l -> b ∈ l -> t a = t b -> q a = q b) ->
  NoDup (map t l).
Proof.
  induction l as [|a rest IH]; intros Hnd Hinj; [constructor|].
  simpl in *. apply NoDup_cons in Hnd as [Hnotin Hnd].
  apply NoDup_cons. split.
  - intros Hin. apply list_elem_of_fmap in Hin as (b & Hab & Hb).
    apply Hnotin. apply list_elem_of_fmap. exists b. split; [|exact Hb].
    apply Hinj; [left|right; exact Hb|exact Hab].
  - apply IH; [exact Hnd|].
    intros b c Hb Hc. apply Hinj; right; assumption.
Qed.

(** X5. When every query index heads at most one surviving entry in each
    table (as in the tables of a k-nearest-neighbour matcher), the
    symmetric correspondences are one to one: no two of them share their
    query index, and no two share their train index. *)
Theorem symmetryTest_one_to_one (o : RobustMatcher)
    (matches1 matches2 : list (list cv.DMatch)) :
  NoDup (best_queries matches1) ->
  NoDup (best_queries matches2) ->
  exists out,
    outcome (symmetryTest matches1 matches2 [] o) = Returned out /\
    NoDup (map cv.queryIdx out) /\
    NoDup (map cv.trainIdx out).
Proof.
  intros Hnd1 Hnd2. rewrite symmetryTest_run. eexists. split; [reflexivity|].
  simpl.
  assert (Hq : NoDup (map cv.queryIdx (omap (symmetric_for matches2) matches1))).
  { eapply sublist_NoDup; [exact Hnd1|apply symmetric_queries_sublist]. }
  split; [exact Hq|].
  apply (NoDup_map_through cv.queryIdx); [exact Hq|].
  intros a b Ha Hb Hab.
  assert (Hma : mutual_best matches1 matches2 (cv.queryIdx a) (cv.trainIdx a)).
  { apply appears_omap_mutual. exists a. auto. }
  assert (Hmb : mutual_best matches1 matches2 (cv.queryIdx b) (cv.trainIdx b)).
  { apply appears_omap_mutual. exists b. auto. }
  destruct Hma as [_ (e2 & Hin2 & Hbest2)], Hmb as [_ (e2' & Hin2' & Hbest2')].
  rewrite <- Hab in Hbest2'.
  exact (best_is_unique matches2 Hnd2 e2 e2' _ _ _ Hin2 Hin2' Hbest2 Hbest2').
Qed.

(** X6. Without a surviving entry in one of the two tables (empty tables
    included) [symmetryTest] pushes nothing: the vector is returned as it
    was given. *)
Theorem symmetryTest_without_survivors (o : RobustMatcher)
    (matches1 matches2 : list (list cv.DMatch)) (symMatches : list cv.DMatch) :
  Forall (fun entry => survives entry = false) matches1 \/
  Forall (fun entry => survives entry = false) matches2 ->
  symmetryTest matches1 matches2 symMatches o = (Returned symMatches, o, []).
Proof.
  intros Hnone. rewrite symmetryTest_run.
  destruct (omap (symmetric_for matches2) matches1) as [|m l] eqn:Hout.
  { rewrite app_nil_r. reflexivity. }
  exfalso.
  assert (Hin : m ∈ omap (symmetric_for matches2) matches1)
    by (rewrite Hout; left).
  apply list_elem_of_omap in Hin as (e1 & Hin1 & Hfor).
  apply symmetric_for_spec in Hfor as (m1 & Hlen & _ & _ & e2 & Hin2 & Hlen2 & _).
  destruct Hnone as [Hnone|Hnone]; rewrite Forall_forall in Hnone.
  - specialize (Hnone e1 Hin1). apply Nat.leb_gt in Hnone. lia.
  - specialize (Hnone e2 Hin2). apply Nat.leb_gt in Hnone. lia.
Qed.

(** *** ransacTest, further *)

Lemma points_of_in_range (matches : list cv.DMatch)
    (keypoints1 keypoints2 : list cv.KeyPoint) :
  Forall (in_range keypoints1 keypoints2) matches <->
  is_Some (points_of matches keypoints1 keypoints2).
Proof.
  induction matches as [|it rest IH]; simpl.
  - split; [eauto|constructor].
  - rewrite Forall_cons, IH. unfold in_range.
    destruct (vector_at keypoints1 (cv.queryIdx it)) as [kp1|],
             (vector_at keypoints2 (cv.trainIdx it)) as [kp2|],
             (points_of rest keypoints1 keypoints2) as [[p1 p2]|];
      simpl; split; intros H;
      try (destruct H as [[[? H1] [? H2]] [? H3]]; discriminate);
      try (destruct H as [? H]; discriminate);
      repeat split; eauto.
Qed.

(** Pair [i] of the point sequences belongs to correspondence [i]. *)
Lemma points_of_aligned (matches : list cv.DMatch)
    (keypoints1 keypoints2 : list cv.KeyPoint) :
  forall p1 p2,
    points_of matches keypoints1 keypoints2 = Some (p1, p2) ->
    length p1 = length matches /\ length p2 = length matches /\
    forall (i : nat) m,
      matches !! i = Some m ->
      p1 !! i = position <$> vector_at keypoints1 (cv.queryIdx m) /\
      p2 !! i = position <$> vector_at keypoints2 (cv.trainIdx m).
Proof.
  induction matches as [|it rest IH]; intros p1 p2 Hpts; simpl in Hpts.
  - injection Hpts as <- <-. split; [reflexivity|]. split; [reflexivity|].
    intros i m Hi. inversion Hi.
  - destruct (vector_at keypoints1 (cv.queryIdx it)) as [kp1|] eqn:H1; [|discriminate].
    destruct (vector_at keypoints2 (cv.trainIdx it)) as [kp2|] eqn:H2; [|discriminate].
    destruct (points_of rest keypoints1 keypoints2) as [[r1 r2]|]; [|discriminate].
    injection Hpts as <- <-.
    destruct (IH r1 r2 eq_refl) as (Hl1 & Hl2 & Hat).
    split; [simpl; congruence|]. split; [simpl; congruence|].
    intros [|i] m Hi; simpl in Hi.
    + injection Hi as <-. rewrite H1, H2. split; reflexivity.
    + apply (Hat i m Hi).
Qed.

(** X7. When the indices of all correspondences are inside the keypoint
    vectors, the robust estimator is called with the two buffers as they
    stood at the call, each followed by one point per correspondence: the
    position of keypoint [queryIdx] of the first image and of keypoint
    [trainIdx] of the second, in the order of the correspondences; the two
    parameters are the configured distance and confidence. *)
Theorem robust_estimator_input (matches : list cv.DMatch)
    (keypoints1 keypoints2 : list cv.KeyPoint) (f : Frame) :
  Forall (in_range keypoints1 keypoints2) matches ->
  exists p1 p2 rest,
    calls (ransacTest matches keypoints1 keypoints2 f) =
      FM_RANSAC (points1 (this f) ++ p1) (points2 (this f) ++ p2)
        (distance (this f)) (confidence (this f)) :: rest /\
    length p1 = length matches /\ length p2 = length matches /\
    forall (i : nat) m,
      matches !! i = Some m ->
      p1 !! i = position <$> vector_at keypoints1 (cv.queryIdx m) /\
      p2 !! i = position <$> vector_at keypoints2 (cv.trainIdx m).
Proof.
  intros Hin. apply points_of_in_range in Hin as [[p1 p2] Hpts].
  destruct (ransacTest_first_call matches keypoints1 keypoints2 f p1 p2 Hpts)
    as [rest Hcalls].
  exists p1, p2, rest. split; [exact Hcalls|].
  apply points_of_aligned, Hpts.
Qed.

(** X8. The indices are not checked: with a correspondence whose
    [queryIdx] or [trainIdx] is outside its keypoint vector (negative
    included) the conversion loop reads out of bounds, before any call of
    an estimator. *)
Theorem index_outside_is_undefined (matches : list cv.DMatch)
    (keypoints1 keypoints2 : list cv.KeyPoint) (f : Frame) :
  ~ Forall (in_range keypoints1 keypoints2) matches ->
  outcome (ransacTest matches keypoints1 keypoints2 f) = Undefined /\
  calls (ransacTest matches keypoints1 keypoints2 f) = [].
Proof.
  intros Hout. rewrite points_of_in_range in Hout.
  destruct (ransacTest_cases matches keypoints1 keypoints2 f);
    try (exfalso; apply Hout; eauto; fail).
  split; reflexivity.
Qed.

(** X9. What the two buffers hold after a call that returns: with the
    refinement, exactly the point pairs of the output vector as the call
    leaves it; without it, what they held at the call followed by the
    point pairs of the correspondences, so that they only grow. *)
Theorem buffers_after_return (matches : list cv.DMatch)
    (keypoints1 keypoints2 : list cv.KeyPoint) (f : Frame)
    (F : Mat) (f' : Frame) (tr : list call) :
  ransacTest matches keypoints1 keypoints2 f = (Returned F, f', tr) ->
  if refineF (this f)
  then points_of (outMatches f') keypoints1 keypoints2 =
       Some (points1 (this f'), points2 (this f'))
  else exists p1 p2,
         points_of matches keypoints1 keypoints2 = Some (p1, p2) /\
         points1 (this f') = points1 (this f) ++ p1 /\
         points2 (this f') = points2 (this f) ++ p2.
Proof.
  intros Hrun.
  pose proof (ransacTest_cases matches keypoints1 keypoints2 f) as Hcases.
  rewrite Hrun in Hcases.
  inversion Hcases; subst;
    match goal with
    | H : refineF (this f) = _ |- _ => rewrite H
    end; simpl.
  - eexists _, _. split; [eassumption|]. split; reflexivity.
  - assumption.
Qed.

(** X10. [ransacTest] and [match] write nothing in the object but the two
    point buffers: detector, extractor, ratio, refinement flag, distance
    and confidence are after the call what they were before, whether the
    call returns or an estimator throws. *)
Theorem configuration_is_kept (matches : list cv.DMatch)
    (keypoints1 keypoints2 : list cv.KeyPoint) (image1 image2 : Image)
    (f : Frame) :
  let run := ransacTest matches keypoints1 keypoints2 f in
  let run' := match_ image1 image2 f in
  (outcome run <> Undefined ->
   this (store run) =
   with_points (points1 (this (store run))) (points2 (this (store run))) (this f)) /\
  (outcome run' <> Undefined ->
   this (store run') =
   with_points (points1 (this (store run'))) (points2 (this (store run'))) (this f)).
Proof.
  assert (Hgen : forall ms k1 k2,
            outcome (ransacTest ms k1 k2 f) <> Undefined ->
            this (store (ransacTest ms k1 k2 f)) =
            with_points (points1 (this (store (ransacTest ms k1 k2 f))))
              (points2 (this (store (ransacTest ms k1 k2 f)))) (this f)).
  { intros ms k1 k2 Hdef.
    destruct (ransacTest_cases ms k1 k2 f);
      unfold outcome, store in *; simpl in *; try congruence; reflexivity. }
  intros run run'. split; [apply Hgen|].
  subst run'. rewrite match_unfold.
  destruct (match_prepared (this f) image1 image2) as [e|[[[kps1 kps2] matches1] matches2]].
  - intros _. unfold store. simpl. destruct (this f). reflexivity.
  - unfold outcome at 1, store at 1 4 5. cbn [fst snd].
    intros Hdef. apply Hgen. intros Hu. apply Hdef. rewrite Hu. reflexivity.
Qed.

Lemma points_of_lengths (matches : list cv.DMatch)
    (keypoints1 keypoints2 : list cv.KeyPoint) (p1 p2 : list cv.Point2f) :
  points_of matches keypoints1 keypoints2 = Some (p1, p2) -> length p1 = length p2.
Proof.
  intros Hpts. destruct (points_of_aligned _ _ _ _ _ Hpts) as (H1 & H2 & _).
  congruence.
Qed.

(** X11. The two buffers go in step: if they have the same length at the
    call, every call of an estimator receives two point sequences of the
    same length, and the buffers have the same length again when the call
    returns or an estimator throws. *)
Theorem buffers_stay_in_step (matches : list cv.DMatch)
    (keypoints1 keypoints2 : list cv.KeyPoint) (f : Frame) :
  length (points1 (this f)) = length (points2 (this f)) ->
  let run := ransacTest matches keypoints1 keypoints2 f in
  Forall same_lengths (calls run) /\
  (outcome run <> Undefined ->
   length (points1 (this (store run))) = length (points2 (this (store run)))).
Proof.
  intros Hstep run. subst run.
  destruct (ransacTest_cases matches keypoints1 keypoints2 f);
    unfold outcome, store, calls; simpl;
    repeat match goal with
           | H : points_of _ _ _ = Some _ |- _ =>
               apply points_of_lengths in H
           end;
    repeat match goal with
           | x := _ |- _ => subst x
           end.
  - split; [constructor|congruence].
  - split; [|intros _; rewrite !length_app; congruence].
    repeat constructor. simpl. rewrite !length_app. congruence.
  - split; [|congruence].
    repeat constructor. simpl. rewrite !length_app. congruence.
  - split; [|intros _; rewrite !length_app; congruence].
    repeat constructor. simpl. rewrite !length_app. congruence.
  - split; [|congruence].
    repeat constructor. simpl. rewrite !length_app. congruence.
  - split; [|intros _; assumption].
    repeat constructor; simpl; [rewrite !length_app; congruence|assumption].
  - split; [|intros _; assumption].
    repeat constructor; simpl; [rewrite !length_app; congruence|assumption].
Qed.

(** X12. With the refinement switched off ([refineFundamental(false)]),
    [ransacTest] calls the robust estimator and nothing else, at most
    once, and the matrix it returns is the one that estimator gave. *)
Theorem unrefined_calls_only_robust (matches : list cv.DMatch)
    (keypoints1 keypoints2 : list cv.KeyPoint) (f : Frame) :
  refineF (this f) = false ->
  let run := ransacTest matches keypoints1 keypoints2 f in
  Forall (fun c => is_robust_call c = true) (calls run) /\
  (length (calls run) <= 1)%nat /\
  forall F,
    outcome run = Returned F ->
    exists q1 q2 mask,
      calls run = [FM_RANSAC q1 q2 (distance (this f)) (confidence (this f))] /\
      findFundamentalMat_RANSAC q1 q2 (distance (this f)) (confidence (this f)) =
      inr (F, mask).
Proof.
  intros Href run. subst run.
  destruct (ransacTest_cases matches keypoints1 keypoints2 f);
    try congruence; unfold outcome, calls; simpl.
  - split; [constructor|]. split; [lia|]. discriminate.
  - split; [repeat constructor|]. split; [lia|]. discriminate.
  - split; [repeat constructor|]. split; [lia|]. discriminate.
  - split; [repeat constructor|]. split; [lia|].
    intros F [= <-]. eexists _, _, _. split; [reflexivity|eassumption].
Qed.

(** X13. When the robust estimator throws, the exception leaves
    [ransacTest] with the output vector untouched, but the point pairs of
    the correspondences stay pushed on the two buffers. *)
Theorem robust_exception_leaves_points (matches : list cv.DMatch)
    (keypoints1 keypoints2 : list cv.KeyPoint) (f : Frame)
    (p1 p2 : list cv.Point2f) (e : exn) :
  points_of matches keypoints1 keypoints2 = Some (p1, p2) ->
  findFundamentalMat_RANSAC (points1 (this f) ++ p1) (points2 (this f) ++ p2)
    (distance (this f)) (confidence (this f)) = inl e ->
  let run := ransacTest matches keypoints1 keypoints2 f in
  outcome run = Thrown e /\
  outMatches (store run) = outMatches f /\
  points1 (this (store run)) = points1 (this f) ++ p1 /\
  points2 (this (store run)) = points2 (this f) ++ p2 /\
  length (calls run) = 1%nat.
Proof.
  intros Hpts Hest run. subst run.
  destruct (ransacTest_cases matches keypoints1 keypoints2 f);
    try congruence;
    match goal with
    | H : points_of matches _ _ = Some _ |- _ =>
        rewrite Hpts in H; injection H as <- <-
    end;
    repeat match goal with
           | x := _ |- _ => subst x
           end;
    try congruence.
  unfold outcome, store, calls. simpl.
  repeat split. congruence.
Qed.



Lemma select_inliers_marked (inliers : list Z) :
  forall matches, select_inliers inliers matches = marked inliers matches.
Proof.
  unfold marked.
  induction inliers as [|b inliers' IH]; intros [|m matches']; simpl; try reflexivity.
  destruct (negb (b =? 0)); simpl; rewrite IH; reflexivity.
Qed.

Lemma elem_of_marked (inliers : list Z) :
  forall (matches : list cv.DMatch) (m : cv.DMatch),
    m ∈ marked inliers matches <->
    exists (i : nat) (b : Z),
      inliers !! i = Some b /\ b <> 0 /\ matches !! i = Some m.
Proof.
  induction inliers as [|b inliers' IH]; intros matches m.
  - split; [intros Hin; inversion Hin|]. intros (i & b & Hb & _). inversion Hb.
  - destruct matches as [|m0 matches'].
    + split; [intros Hin; inversion Hin|]. intros (i & b' & _ & _ & Hm). inversion Hm.
    + unfold marked in *. simpl.
      destruct (b =? 0) eqn:Hb; simpl.
      * apply Z.eqb_eq in Hb. rewrite IH. split.
        -- intros (i & b' & H1 & H2 & H3). exists (S i), b'. auto.
        -- intros ([|i] & b' & H1 & H2 & H3); simpl in *; [congruence|eauto].
      * apply Z.eqb_neq in Hb. rewrite elem_of_cons, IH. split.
        -- intros [->|(i & b' & H1 & H2 & H3)].
           ++ exists 0%nat, b. auto.
           ++ exists (S i), b'. auto.
        -- intros ([|i] & b' & H1 & H2 & H3); simpl in *.
           ++ left. congruence.
           ++ right. eauto.
Qed.

(** X15. When the mask of the robust estimator is no longer than the
    correspondences (as it is when the two buffers were empty at the
    call), the correspondences [ransacTest] pushes are those whose mask
    byte is not zero (any non-zero byte counts), correspondence [i] going
    with byte [i] of the mask, in the order of the correspondences. *)
Theorem inliers_are_the_marked (matches : list cv.DMatch)
    (keypoints1 keypoints2 : list cv.KeyPoint) (f : Frame)
    (p1 p2 : list cv.Point2f) (F0 : Mat) (mask : list Z) :
  points_of matches keypoints1 keypoints2 = Some (p1, p2) ->
  findFundamentalMat_RANSAC (points1 (this f) ++ p1) (points2 (this f) ++ p2)
    (distance (this f)) (confidence (this f)) = inr (F0, mask) ->
  (length mask <= length matches)%nat ->
  let run := ransacTest matches keypoints1 keypoints2 f in
  outMatches (store run) = outMatches f ++ marked mask matches /\
  forall m,
    m ∈ marked mask matches <->
    exists (i : nat) (b : Z), mask !! i = Some b /\ b <> 0 /\ matches !! i = Some m.
Proof.
  intros Hpts Hest Hlen run. subst run.
  split; [|apply elem_of_marked].
  destruct (ransacTest_cases matches keypoints1 keypoints2 f);
    unfold store; simpl; try congruence;
    match goal with
    | H : points_of matches _ _ = Some _ |- _ =>
        rewrite Hpts in H; injection H as <- <-
    end;
    repeat match goal with
           | x := _ |- _ => subst x
           end;
    match goal with
    | H : findFundamentalMat_RANSAC _ _ _ _ = _ |- _ =>
        rewrite Hest in H; try discriminate H; injection H as <- <-
    end;
    try lia;
    rewrite <- select_inliers_marked; first [reflexivity | assumption].
Qed.

(** *** match, further *)

(** X16. The first [match] on a newly constructed object: when the
    detector, the extractor and the matcher have answered and the
    symmetric correspondences index the keypoints of the extractor, the
    robust estimator receives exactly one point pair per symmetric
    correspondence, with the distance 3.0 and the confidence 0.99 of the
    constructor. *)
Theorem first_match_on_new_object (image1 image2 : Image)
    (matches : list cv.DMatch) (p1 p2 : list cv.Point2f)
    (keypoints1 keypoints2 : list cv.KeyPoint)
    (matches1 matches2 : list (list cv.DMatch)) :
  match_prepared RobustMatcher_new image1 image2 =
    inr (keypoints1, keypoints2, matches1, matches2) ->
  let symmetric := match_symmetric RobustMatcher_new matches1 matches2 in
  points_of symmetric keypoints1 keypoints2 = Some (p1, p2) ->
  exists rest,
    calls (match_ image1 image2 (mkFrame RobustMatcher_new matches)) =
      FM_RANSAC p1 p2 IEEE.d3_0 IEEE.d0_99 :: rest /\
    length p1 = length symmetric /\
    length p2 = length symmetric.
Proof.
  intros Hprep symmetric Hpts.
  rewrite (match_run_prepared image1 image2 (mkFrame RobustMatcher_new matches)
             keypoints1 keypoints2 matches1 matches2 Hprep).
  unfold calls at 1. cbn [snd].
  destruct (ransacTest_first_call symmetric keypoints1 keypoints2
              (mkFrame RobustMatcher_new matches) p1 p2 Hpts) as [rest Hcalls].
  exists rest. split; [exact Hcalls|].
  destruct (points_of_aligned _ _ _ _ _ Hpts) as (H1 & H2 & _). auto.
Qed.

(** X17. The buffers carry over from one call to the next on the same
    object: after a call with the refinement that returned, the next call
    hands the robust estimator the point pairs of the output vector of the
    first call, followed by the point pairs of its own correspondences. *)
Theorem buffers_carry_over (matches : list cv.DMatch)
    (keypoints1 keypoints2 : list cv.KeyPoint) (f : Frame)
    (F : Mat) (f' : Frame) (tr : list call)
    (matches' : list cv.DMatch) (keypoints1' keypoints2' : list cv.KeyPoint)
    (p1' p2' : list cv.Point2f) (out' : list cv.DMatch) :
  ransacTest matches keypoints1 keypoints2 f = (Returned F, f', tr) ->
  refineF (this f) = true ->
  points_of matches' keypoints1' keypoints2' = Some (p1', p2') ->
  exists r1 r2 rest,
    points_of (outMatches f') keypoints1 keypoints2 = Some (r1, r2) /\
    length r1 = length (outMatches f') /\
    calls (ransacTest matches' keypoints1' keypoints2' (mkFrame (this f') out')) =
      FM_RANSAC (r1 ++ p1') (r2 ++ p2') (distance (this f)) (confidence (this f))
      :: rest.
Proof.
  intros Hrun Href Hpts'.
  pose proof (ransacTest_cases matches keypoints1 keypoints2 f) as Hcases.
  rewrite Hrun in Hcases.
  inversion Hcases; subst; try congruence.
  destruct (ransacTest_first_call matches' keypoints1' keypoints2'
              (mkFrame (with_points r1 r2 (this f)) out') p1' p2' Hpts')
    as [rest Hcalls].
  exists r1, r2, rest. simpl in *.
  split; [assumption|].
  split; [|exact Hcalls].
  match goal with
  | H : points_of _ keypoints1 keypoints2 = Some (r1, r2) |- _ =>
      destruct (points_of_aligned _ _ _ _ _ H) as (Hl & _)
  end. exact Hl.
Qed.

End Further.

(** ** The properties on the rectified stereo pair *)

Module Examples.

Import Fixture.

#[local] Existing Instance stereo.

(** C2 (defect of the code). The point buffers are members of the object
    and the conversion loop pushes on them without clearing them. A first
    call on three correspondences leaves the two inlier points in the
    buffers (the refinement rebuilt them); a second call on the same
    object, with a new output vector, hands five point pairs to the
    robust estimator for three correspondences, the first two being those
    of the first call, and runs the extraction loop off the end of the
    correspondences. *)
Theorem second_call_feeds_stale_points :
  let run1 := ransacTest three keypointsL keypointsR fresh in
  let again := mkFrame (this (store run1)) [] in
  let run2 := ransacTest three keypointsL keypointsR again in
  (exists F, outcome run1 = Returned F) /\
  length three = 3%nat /\
  (exists q1 q2 d c,
     calls run2 = [FM_RANSAC q1 q2 d c] /\
     length q1 = 5%nat /\ length q2 = 5%nat /\
     take 2 q1 = points1 (this (store run1)) /\
     take 2 q2 = points2 (this (store run1))) /\
  outcome run2 = Undefined.
Proof.
  cbv zeta. split; [eexists; vm_compute; reflexivity|].
  split; [reflexivity|].
  split; [|vm_compute; reflexivity].
  eexists _, _, _, _. split; [vm_compute; reflexivity|].
  repeat split; vm_compute; reflexivity.
Qed.

(** C5 (defect of the code, the one of C2). On the second call on the
    same object the mask of the robust estimator covers the two stale
    point pairs and the three new ones: it has five bytes, four of them
    not zero, for three correspondences. The extraction loop pushes one
    element for each non-zero byte. Before it leaves the correspondences
    it has pushed all three of them, the middle one included, which joins
    two different rows and which the first call had rejected: the bytes it
    reads belong to other point pairs. With the last non-zero byte it
    reads beyond the end of the correspondences. *)
Theorem second_call_pushes_beyond_its_input :
  let run1 := ransacTest three keypointsL keypointsR fresh in
  let again := mkFrame (this (store run1)) [] in
  let run2 := ransacTest three keypointsL keypointsR again in
  map cv.queryIdx (outMatches (store run1)) = [0; 2] /\
  (exists q1 q2 F0 mask,
     calls run2 = [FM_RANSAC q1 q2 IEEE.d3_0 IEEE.d0_99] /\
     findFundamentalMat_RANSAC q1 q2 IEEE.d3_0 IEEE.d0_99 = inr (F0, mask) /\
     mask = [1; 1; 1; 0; 1] /\
     (length three < length (List.filter (fun b : Z => negb (b =? 0)%Z) mask))%nat) /\
  outcome run2 = Undefined /\
  map cv.queryIdx (outMatches (store run2)) = [0; 1; 2].
Proof.
  cbv zeta. split; [vm_compute; reflexivity|].
  split; [|split; vm_compute; reflexivity].
  eexists _, _, _, _. split; [vm_compute; reflexivity|].
  split; [vm_compute; reflexivity|].
  split; [reflexivity|]. simpl. lia.
Qed.

(** C1, counterexample: the detector, the extractor and the matcher
    answer, one correspondence survives the symmetry test, and [match] as
    well as [ransacTest] call the estimators and return. *)
Lemma match_calls_estimator_on_one_correspondence :
  match_prepared matcher imageL imageR = inr (keypointsL, keypointsR, tableL, tableR) /\
  (length (match_symmetric matcher tableL tableR) < 8)%nat /\
  ~ signals_InsufficientCorrespondences (match_ imageL imageR fresh) /\
  ~ signals_InsufficientCorrespondences
      (ransacTest (match_symmetric matcher tableL tableR) keypointsL keypointsR fresh).
Proof.
  split; [reflexivity|].
  split; [vm_compute; lia|].
  split; intros [_ Hcalls]; vm_compute in Hcalls; discriminate Hcalls.
Qed.

Lemma ransacTest_has_no_minimum_count_witness :
  (length (match_symmetric matcher tableL tableR) < 8)%nat /\
  (exists rest,
     calls (ransacTest (match_symmetric matcher tableL tableR)
              keypointsL keypointsR fresh) =
     FM_RANSAC [position (keypoint 10 5)] [position (keypoint 12 5)]
       IEEE.d3_0 IEEE.d0_99 :: rest) /\
  calls (match_ imageL imageR fresh) =
  calls (ransacTest (match_symmetric matcher tableL tableR) keypointsL keypointsR fresh).
Proof.
  split; [vm_compute; lia|].
  destruct (ransacTest_has_no_minimum_count (opencv := stereo)
              (match_symmetric matcher tableL tableR) keypointsL keypointsR fresh
              [position (keypoint 10 5)] [position (keypoint 12 5)]
              imageL imageR eq_refl) as (Hfirst & _ & Hmatch).
  split; [exact Hfirst|].
  rewrite (Hmatch keypointsL keypointsR tableL tableR eq_refl). reflexivity.
Defined.

(** C3, counterexample: both neighbours at distance zero make the
    quotient a NaN, which is neither above the threshold nor below it;
    the entry is kept and the counter stays at 0. *)
Lemma ratioTest_keeps_nan_quotient :
  ~ ratioTest_as_specified matcher [twins].
Proof.
  unfold ratioTest_as_specified. vm_compute. discriminate.
Qed.

Lemma ratioTest_keeps_unless_above_witness :
  Z.of_nat (length tableL) <= INT_MAX /\
  outcome (ratioTest tableL matcher) =
    Returned (count (cleared (ratio matcher)) tableL,
              map (ratio_filtered (ratio matcher)) tableL) /\
  ratio_keeps (ratio matcher) [neighbour 2 2 IEEE.f0_65; neighbour 2 0 (flt 1 0)] = true /\
  ratio_keeps (ratio matcher) [neighbour 2 2 (flt 1 0)] = false.
Proof.
  destruct (ratioTest_keeps_unless_above matcher tableL)
    as (Hrun & _ & Hfew & _ & _ & Hat & Hint).
  assert (Hlen : Z.of_nat (length tableL) <= INT_MAX) by (vm_compute; discriminate).
  split; [exact Hlen|].
  split; [rewrite Hrun, (Hint Hlen); reflexivity|].
  split; [apply Hat; vm_compute; reflexivity|].
  apply Hfew. simpl. lia.
Defined.

(** C6, counterexample: the output vector already holds a correspondence
    at the call; the exact estimate is made from three point pairs, that
    of the earlier correspondence and those of the two inliers. *)
Lemma refinement_includes_earlier_output :
  ~ refines_from_inliers_only three keypointsL keypointsR used.
Proof.
  intros Hspec.
  destruct (ransacTest three keypointsL keypointsR used) as [[r f'] tr] eqn:Hrun.
  vm_compute in Hrun. injection Hrun as <- <- <-.
  match type of Hspec with
  | refines_from_inliers_only ?ms ?k1 ?k2 ?f =>
      revert Hspec; unfold refines_from_inliers_only; intros Hspec
  end.
  eassert (Hrun : ransacTest three keypointsL keypointsR used = (Returned _, _, _))
    by (vm_compute; reflexivity).
  destruct (Hspec _ _ _ Hrun) as (inliers & r1 & r2 & Hout & Hpts & Hin & _).
  simpl in Hout. injection Hout as <-.
  vm_compute in Hpts. injection Hpts as <- <-.
  apply elem_of_cons in Hin as [Hin|Hin]; [discriminate Hin|].
  apply list_elem_of_singleton in Hin. discriminate Hin.
Qed.

Lemma refinement_reads_the_output_vector_witness :
  refineF (this used) = true /\
  exists F0 f0' c,
    ransacTest three keypointsL keypointsR (with_refineF false used) =
      (Returned F0, f0', [c]) /\
    outMatches (store (ransacTest three keypointsL keypointsR used)) = outMatches f0'.
Proof.
  split; [reflexivity|].
  eassert (Hrun : ransacTest three keypointsL keypointsR used = (Returned _, _, _))
    by (vm_compute; reflexivity).
  destruct (refinement_reads_the_output_vector (opencv := stereo)
              three keypointsL keypointsR used _ _ _ eq_refl Hrun)
    as (F0 & f0' & c & r1 & r2 & inliers & Hun & Hsame & _).
  exists F0, f0', c. split; [exact Hun|].
  rewrite Hrun. exact Hsame.
Defined.

Lemma outputs_are_appended_witness :
  outcome (ransacTest three keypointsL keypointsR used) <> Undefined /\
  exists new,
    outMatches (store (ransacTest three keypointsL keypointsR used)) =
    outMatches used ++ new.
Proof.
  assert (Hdef : outcome (ransacTest three keypointsL keypointsR used) <> Undefined)
    by (vm_compute; discriminate).
  split; [exact Hdef|].
  destruct (outputs_are_appended (opencv := stereo) matcher tableL tableR [] three keypointsL keypointsR used)
    as [_ Hr].
  destruct (Hr Hdef) as (new & Hout & _).
  exists new. exact Hout.
Defined.

Lemma ratioTest_counts_empty_entries_witness :
  Z.of_nat (length tableR) <= INT_MAX /\
  exists matches',
    outcome (ratioTest ([] :: tableR) matcher) = Returned (2, matches') /\
    outcome (ratioTest matches' matcher) = Returned (2, matches').
Proof.
  assert (Hlen : Z.of_nat (length ([] :: tableR)) <= INT_MAX) by (vm_compute; discriminate).
  split; [vm_compute; discriminate|].
  pose proof (ratioTest_counts_empty_entries matcher ([] :: tableR)) as Hthm.
  cbv zeta in Hthm.
  destruct Hthm as (_ & matches' & Hfirst & Hsecond & _ & Hint).
  rewrite (Hint Hlen) in Hfirst, Hsecond.
  exists matches'. split; [exact Hfirst|exact Hsecond].
Defined.

End Examples.

(** ** The further properties on the stereo pair *)

Module FurtherExamples.

Import Fixture.

#[local] Existing Instance stereo.

Lemma ratioTest_size_minus_removed_witness :
  Z.of_nat (length tableL) <= INT_MAX /\
  exists removed matches',
    outcome (ratioTest tableL matcher) = Returned (removed, matches') /\
    Z.of_nat (length matches') - removed = count survives matches'.
Proof.
  assert (Hlen : Z.of_nat (length tableL) <= INT_MAX) by (vm_compute; discriminate).
  split; [exact Hlen|].
  destruct (ratioTest_size_minus_removed (opencv := stereo) matcher tableL Hlen)
    as (removed & matches' & Hrun & _ & Hcount).
  exists removed, matches'. split; [exact Hrun|exact Hcount].
Defined.

Lemma ratioTest_monotone_in_ratio_witness :
  IEEE.fle (ratio matcher) (flt 1 0) = true /\
  count (cleared (flt 1 0)) tableL <= count (cleared (ratio matcher)) tableL.
Proof.
  assert (Hle : IEEE.fle (ratio matcher) (flt 1 0) = true) by (vm_compute; reflexivity).
  split; [exact Hle|].
  destruct (ratioTest_monotone_in_ratio (opencv := stereo) matcher (flt 1 0) tableL Hle)
    as (_ & _ & _ & _ & _ & _ & _ & Hcount).
  exact Hcount.
Defined.

Lemma symmetryTest_one_to_one_witness :
  NoDup (best_queries tableL) /\ NoDup (best_queries tableR) /\
  exists out,
    outcome (symmetryTest tableL tableR [] matcher) = Returned out /\
    NoDup (map cv.queryIdx out) /\ NoDup (map cv.trainIdx out).
Proof.
  assert (H1 : NoDup (best_queries tableL)).
  { change (best_queries tableL) with [0; 1; 2].
    repeat (apply NoDup_cons; split;
            [intros Hin;
             repeat (apply elem_of_cons in Hin as [Hin|Hin]; [discriminate Hin|]);
             inversion Hin|]).
    apply NoDup_nil. exact I. }
  assert (H2 : NoDup (best_queries tableR)).
  { change (best_queries tableR) with [0; 1].
    repeat (apply NoDup_cons; split;
            [intros Hin;
             repeat (apply elem_of_cons in Hin as [Hin|Hin]; [discriminate Hin|]);
             inversion Hin|]).
    apply NoDup_nil. exact I. }
  split; [exact H1|]. split; [exact H2|].
  exact (symmetryTest_one_to_one (opencv := stereo) matcher tableL tableR H1 H2).
Defined.

Lemma symmetryTest_without_survivors_witness :
  symmetryTest [] tableR three matcher = (Returned three, matcher, []).
Proof.
  apply (symmetryTest_without_survivors (opencv := stereo) matcher [] tableR three).
  left. constructor.
Defined.

Lemma three_in_range : Forall (in_range keypointsL keypointsR) three.
Proof.
  repeat constructor; vm_compute; eauto.
Defined.

Lemma robust_estimator_input_witness :
  exists p1 p2 rest,
    calls (ransacTest three keypointsL keypointsR fresh) =
      FM_RANSAC p1 p2 IEEE.d3_0 IEEE.d0_99 :: rest /\
    length p1 = 3%nat /\ length p2 = 3%nat.
Proof.
  destruct (robust_estimator_input (opencv := stereo) three keypointsL keypointsR fresh
              three_in_range) as (p1 & p2 & rest & Hcalls & Hl1 & Hl2 & _).
  exists p1, p2, rest. split; [exact Hcalls|]. split; [exact Hl1|exact Hl2].
Defined.

Lemma index_outside_is_undefined_witness :
  ~ Forall (in_range keypointsL keypointsR) astray /\
  outcome (ransacTest astray keypointsL keypointsR fresh) = Undefined /\
  calls (ransacTest astray keypointsL keypointsR fresh) = [].
Proof.
  assert (Hout : ~ Forall (in_range keypointsL keypointsR) astray).
  { intros Hall. apply Forall_cons in Hall as [[[kp Hkp] _] _].
    vm_compute in Hkp. discriminate Hkp. }
  split; [exact Hout|].
  exact (index_outside_is_undefined (opencv := stereo) astray keypointsL keypointsR
           fresh Hout).
Defined.

Lemma buffers_after_return_witness :
  refineF (this fresh) = true /\
  points_of (outMatches (store (ransacTest three keypointsL keypointsR fresh)))
    keypointsL keypointsR =
  Some (points1 (this (store (ransacTest three keypointsL keypointsR fresh))),
        points2 (this (store (ransacTest three keypointsL keypointsR fresh)))).
Proof.
  split; [reflexivity|].
  eassert (Hrun : ransacTest three keypointsL keypointsR fresh = (Returned _, _, _))
    by (vm_compute; reflexivity).
  pose proof (buffers_after_return (opencv := stereo) three keypointsL keypointsR fresh
                _ _ _ Hrun) as Hafter.
  rewrite Hrun. exact Hafter.
Defined.

Lemma configuration_is_kept_witness :
  outcome (ransacTest three keypointsL keypointsR fresh) <> Undefined /\
  outcome (match_ imageL imageR fresh) <> Undefined /\
  ratio (this (store (match_ imageL imageR fresh))) = ratio matcher /\
  refineF (this (store (ransacTest three keypointsL keypointsR fresh))) = true.
Proof.
  assert (H1 : outcome (ransacTest three keypointsL keypointsR fresh) <> Undefined)
    by (vm_compute; discriminate).
  assert (H2 : outcome (match_ imageL imageR fresh) <> Undefined)
    by (vm_compute; discriminate).
  destruct (configuration_is_kept (opencv := stereo) three keypointsL keypointsR
              imageL imageR fresh) as [Hr Hm].
  split; [exact H1|]. split; [exact H2|].
  rewrite (Hm H2), (Hr H1). split; reflexivity.
Defined.

Lemma buffers_stay_in_step_witness :
  length (points1 (this fresh)) = length (points2 (this fresh)) /\
  Forall same_lengths (calls (ransacTest three keypointsL keypointsR fresh)).
Proof.
  split; [reflexivity|].
  exact (proj1 (buffers_stay_in_step (opencv := stereo) three keypointsL keypointsR
                  fresh eq_refl)).
Defined.

Lemma unrefined_calls_only_robust_witness :
  refineF (this (with_refineF false fresh)) = false /\
  (length (calls (ransacTest three keypointsL keypointsR (with_refineF false fresh)))
     <= 1)%nat.
Proof.
  split; [reflexivity|].
  destruct (unrefined_calls_only_robust (opencv := stereo) three keypointsL keypointsR
              (with_refineF false fresh) eq_refl) as (_ & Hlen & _).
  exact Hlen.
Defined.

Lemma robust_exception_leaves_points_witness :
  outcome (ransacTest three keypointsL keypointsR skewed) = Thrown (cvError (-215)) /\
  outMatches (store (ransacTest three keypointsL keypointsR skewed)) = [] /\
  length (points1 (this (store (ransacTest three keypointsL keypointsR skewed)))) = 4%nat.
Proof.
  eassert (Hpts : points_of three keypointsL keypointsR = Some (_, _))
    by (vm_compute; reflexivity).
  destruct (robust_exception_leaves_points (opencv := stereo) three keypointsL keypointsR
              skewed _ _ (cvError (-215)) Hpts eq_refl)
    as (Hthrown & Hout & Hp1 & _).
  split; [exact Hthrown|]. split; [exact Hout|].
  rewrite Hp1. reflexivity.
Defined.


Lemma inliers_are_the_marked_witness :
  (length [1; 0; 1] <= length three)%nat /\
  outMatches (store (ransacTest three keypointsL keypointsR fresh)) =
  marked [1; 0; 1] three.
Proof.
  assert (Hdef : (length [1; 0; 1] <= length three)%nat) by (simpl; lia).
  split; [exact Hdef|].
  eassert (Hpts : points_of three keypointsL keypointsR = Some (_, _))
    by (vm_compute; reflexivity).
  eassert (Hest : findFundamentalMat_RANSAC _ _ _ _ = inr (_, [1; 0; 1])).
  2: { exact (proj1 (inliers_are_the_marked (opencv := stereo) three keypointsL
                       keypointsR fresh _ _ _ [1; 0; 1] Hpts Hest Hdef)). }
  vm_compute. reflexivity.
Defined.

Lemma first_match_on_new_object_witness :
  match_prepared RobustMatcher_new imageL imageR =
    inr (keypointsL, keypointsR, tableL, tableR) /\
  exists p1 p2 rest,
    calls (match_ imageL imageR (mkFrame RobustMatcher_new [])) =
      FM_RANSAC p1 p2 IEEE.d3_0 IEEE.d0_99 :: rest /\
    length p1 = 1%nat.
Proof.
  split; [reflexivity|].
  eassert (Hpts : points_of (match_symmetric RobustMatcher_new tableL tableR)
                    keypointsL keypointsR = Some (_, _))
    by (vm_compute; reflexivity).
  destruct (first_match_on_new_object (opencv := stereo) imageL imageR [] _ _
              keypointsL keypointsR tableL tableR eq_refl Hpts)
    as (rest & Hcalls & Hl1 & _).
  eexists _, _, rest. split; [exact Hcalls|]. rewrite Hl1. reflexivity.
Defined.

Lemma buffers_carry_over_witness :
  refineF (this fresh) = true /\
  exists r1 r2 p1' p2' rest,
    length r1 = 2%nat /\
    calls (ransacTest three keypointsL keypointsR
             (mkFrame (this (store (ransacTest three keypointsL keypointsR fresh))) [])) =
      FM_RANSAC (r1 ++ p1') (r2 ++ p2') IEEE.d3_0 IEEE.d0_99 :: rest.
Proof.
  split; [reflexivity|].
  eassert (Hrun : ransacTest three keypointsL keypointsR fresh = (Returned _, _, _))
    by (vm_compute; reflexivity).
  eassert (Hpts : points_of three keypointsL keypointsR = Some (_, _))
    by (vm_compute; reflexivity).
  destruct (buffers_carry_over (opencv := stereo) three keypointsL keypointsR fresh
              _ _ _ three keypointsL keypointsR _ _ [] Hrun eq_refl Hpts)
    as (r1 & r2 & rest & _ & Hlen & Hcalls).
  eexists r1, r2, _, _, rest. split; [rewrite Hlen; reflexivity|].
  rewrite Hrun. exact Hcalls.
Defined.

End FurtherExamples.
